(** * SafeMemory: a RAII wrapper around a WINAPI process handle

    Shallow embedding of [src/Main/rh_memory.hpp].

    The header talks to the operating system only through a handful of
    WINAPI entry points.  They are not part of the repository, so the
    embedding takes them as an interface ([Win32]): every theorem below
    holds for every behaviour of the operating system, and the concrete
    machine of [Module Demo] is one inhabitant of that interface.

    C++ effects are rendered by one small monad [M]: it threads the state
    of the operating system, records the WINAPI calls that were made (in
    program order) and carries C++ exceptions. *)

From Stdlib Require Import ZArith String Ascii List Bool Lia.
From Stdlib Require Import Strings.Byte.
Import ListNotations.
Local Open Scope Z_scope.

(** ** Machine data *)

(** [HANDLE], [HWND] and [std::uintptr_t] are pointer-sized; [DWORD] and
    [std::uint32_t] are 32-bit.  All of them are carried as [Z]. *)
Inductive PtrWidth : Set := W32 | W64.

Definition ptr_bits (a : PtrWidth) : Z :=
  match a with W32 => 32 | W64 => 64 end.

Definition HANDLE := Z.
Definition HWND := Z.
Definition DWORD := Z.

Definition nullptr : Z := 0.

(** [#define INVALID_HANDLE_VALUE ((HANDLE)(LONG_PTR)-1)] *)
Definition INVALID_HANDLE_VALUE (a : PtrWidth) : HANDLE :=
  (-1) mod 2 ^ ptr_bits a.

(** Flags of [CreateToolhelp32Snapshot] (TlHelp32.h). *)
Definition TH32CS_SNAPPROCESS : DWORD := 2.
Definition TH32CS_SNAPMODULE : DWORD := 8.
Definition TH32CS_SNAPMODULE32 : DWORD := 16.

(** Process access rights (winnt.h). *)
Definition PROCESS_VM_OPERATION : DWORD := 8.
Definition PROCESS_VM_READ : DWORD := 16.
Definition PROCESS_VM_WRITE : DWORD := 32.
Definition PROCESS_ALL_ACCESS : DWORD := 2097151.

(** [enum SafeMemory_Access : DWORD] *)
Inductive SafeMemory_Access : Set :=
| SafeMemory_AllAccess
| SafeMemory_ReadAccess
| SafeMemory_WriteAccess.

Definition access_flags (a : SafeMemory_Access) : DWORD :=
  match a with
  | SafeMemory_AllAccess => PROCESS_ALL_ACCESS
  | SafeMemory_ReadAccess => PROCESS_VM_READ
  | SafeMemory_WriteAccess => PROCESS_VM_WRITE
  end.

(** A [CHAR] array read as a C string stops at its first NUL; this is
    what [std::string_view(const char* )] and [std::string::c_str] see. *)
Fixpoint c_str (s : string) : string :=
  match s with
  | EmptyString => EmptyString
  | String c r => if Ascii.eqb c Ascii.zero then EmptyString else String c (c_str r)
  end.

(** [operator==(std::string_view, const CHAR[])]: the array converts to a
    view of its C string, then lengths and characters are compared. *)
Definition view_eq_cstr (v : string) (arr : string) : bool :=
  String.eqb v (c_str arr).

(** The fields of [PROCESSENTRY32] and [MODULEENTRY32] the header reads. *)
Record PROCESSENTRY32 : Set := {
  th32ProcessID : DWORD;
  szExeFile : string
}.

Record MODULEENTRY32 : Set := {
  modBaseAddr : Z;
  szModule : string
}.

(** What a toolhelp snapshot handle denotes: the point-in-time copies of
    the process list and of the module list, in enumeration order. *)
Record Snapshot : Set := {
  snap_processes : list PROCESSENTRY32;
  snap_modules : list MODULEENTRY32
}.

(** ** The operating system *)

(** Every entry point maps the state of the system to its answer and the
    next state.  [BOOL] answers are [bool]; a failed [ReadProcessMemory]
    answers [None], a successful one the bytes it stored in the buffer.
    [os_GetWindowThreadProcessId] answers the thread identifier together
    with the value it stored through the out-pointer, if it stored one.
    [Process32_accepts] and [Module32_accepts] say which [dwSize] the
    enumeration functions take. *)
Record Win32 : Type := {
  arch : PtrWidth;
  World : Type;
  sizeof_MODULEENTRY32 : Z;
  Process32_accepts : Z -> bool;
  Module32_accepts : Z -> bool;
  os_CreateToolhelp32Snapshot : DWORD -> DWORD -> World -> (HANDLE * Snapshot) * World;
  os_FindWindowA : option string -> string -> World -> HWND * World;
  os_GetWindowThreadProcessId : HWND -> World -> (DWORD * option DWORD) * World;
  os_OpenProcess : DWORD -> bool -> DWORD -> World -> HANDLE * World;
  os_CloseHandle : HANDLE -> World -> bool * World;
  os_ReadProcessMemory : HANDLE -> Z -> nat -> World -> option (list byte) * World;
  os_WriteProcessMemory : HANDLE -> Z -> list byte -> World -> bool * World
}.

(** The WINAPI calls a run makes, as they appear in the trace. *)
Inductive Call : Type :=
| CallCreateToolhelp32Snapshot (flags pid : DWORD)
| CallProcess32First (hSnapshot : HANDLE) (dwSize : Z)
| CallProcess32Next (hSnapshot : HANDLE) (dwSize : Z)
| CallModule32First (hSnapshot : HANDLE) (dwSize : Z)
| CallModule32Next (hSnapshot : HANDLE) (dwSize : Z)
| CallFindWindowA (title : string)
| CallGetWindowThreadProcessId (hwnd : HWND)
| CallOpenProcess (access : DWORD) (inherit : bool) (pid : DWORD)
| CallCloseHandle (h : HANDLE)
| CallReadProcessMemory (h : HANDLE) (addr : Z) (size : nat)
| CallWriteProcessMemory (h : HANDLE) (addr : Z) (bytes : list byte).

(** C++ exceptions leaving the header. *)
Inductive exn : Set :=
| std_exception (what : string)
| bad_optional_access.

Inductive Result (A : Type) : Type :=
| Ok (a : A)
| Throw (e : exn).
Arguments Ok {A} a.
Arguments Throw {A} e.

(** Fixed-size values that are copied byte for byte: the [T] of
    [SafeReadMemory<T>] and [SafeWriteMemory<T>]. *)
Class Layout (T : Type) : Type := {
  sizeof : nat;
  object_bytes : T -> list byte;
  from_bytes : list byte -> T
}.
Arguments sizeof T {_}.

(** The object representation determines the value (no padding, no
    invalid bit patterns among the stored ones). *)
Class LayoutOk (T : Type) `{Layout T} : Prop := {
  object_bytes_length : forall v : T, length (object_bytes v) = sizeof T;
  from_object_bytes : forall v : T, from_bytes (object_bytes v) = v
}.

(** [class SafeMemory]: the two private members. *)
Record SafeMemory : Set := {
  m_processHandle : option HANDLE;
  m_processID : option DWORD
}.

Definition has_value {A : Type} (o : option A) : bool :=
  match o with Some _ => true | None => false end.

Section Program.

Variable os : Win32.

(** ** The monad of the embedding *)

Record Sys : Type := {
  world : World os;
  calls : list Call
}.

Definition M (A : Type) : Type := Sys -> Result A * Sys.

Definition ret {A : Type} (a : A) : M A := fun s => (Ok a, s).

Definition throw {A : Type} (e : exn) : M A := fun s => (Throw e, s).

Definition bind {A B : Type} (c : M A) (k : A -> M B) : M B :=
  fun s =>
    match c s with
    | (Ok a, s') => k a s'
    | (Throw e, s') => (Throw e, s')
    end.

(** One WINAPI call: it is appended to the trace and the system moves. *)
Definition winapi {A : Type} (c : Call) (f : World os -> A * World os) : M A :=
  fun s =>
    let (a, w) := f (world s) in
    (Ok a, {| world := w; calls := calls s ++ [c] |}).

End Program.

Arguments ret {os A} a.
Arguments throw {os A} e.
Arguments bind {os A B} c k.
Arguments winapi {os A} c f.
Arguments world {os} s.
Arguments calls {os} s.

Declare Scope cpp_scope.
Delimit Scope cpp_scope with cpp.
Notation "x <- c ;; k" := (bind c (fun x => k))
  (at level 61, c at next level, right associativity) : cpp_scope.
Notation "' pat <- c ;; k" := (bind c (fun x => match x with pat => k end))
  (at level 61, pat pattern, c at next level, right associativity) : cpp_scope.
Notation "c ;;; k" := (bind c (fun _ => k))
  (at level 61, right associativity) : cpp_scope.

Local Open Scope cpp_scope.

Section SafeMemoryClass.

Variable os : Win32.

(** ** WINAPI entry points, as the header calls them *)

Definition CreateToolhelp32Snapshot (flags pid : DWORD) : M os (HANDLE * Snapshot) :=
  winapi (CallCreateToolhelp32Snapshot flags pid)
         (os_CreateToolhelp32Snapshot os flags pid).

Definition FindWindowA (class : option string) (title : string) : M os HWND :=
  winapi (CallFindWindowA title) (os_FindWindowA os class title).

Definition GetWindowThreadProcessId (hwnd : HWND) : M os (DWORD * option DWORD) :=
  winapi (CallGetWindowThreadProcessId hwnd) (os_GetWindowThreadProcessId os hwnd).

Definition OpenProcess (access : DWORD) (inherit : bool) (pid : DWORD) : M os HANDLE :=
  winapi (CallOpenProcess access inherit pid) (os_OpenProcess os access inherit pid).

Definition CloseHandle (h : HANDLE) : M os bool :=
  winapi (CallCloseHandle h) (os_CloseHandle os h).

Definition ReadProcessMemory (h : HANDLE) (addr : Z) (size : nat) : M os (option (list byte)) :=
  winapi (CallReadProcessMemory h addr size) (os_ReadProcessMemory os h addr size).

Definition WriteProcessMemory (h : HANDLE) (addr : Z) (bytes : list byte) : M os bool :=
  winapi (CallWriteProcessMemory h addr bytes) (os_WriteProcessMemory os h addr bytes).

(** A call of an enumeration function on a snapshot handle: it is
    appended to the trace and delivers its answer; the copy behind the
    handle is a copy, the system does not move. *)
Definition enumerate {A : Type} (c : Call) (answer : A) : M os A :=
  winapi c (fun w => (answer, w)).

(** What the enumeration functions answer: they walk the copy behind the
    snapshot handle.  The cursor is the list of entries not yet
    delivered; [None] is the answer [FALSE]. *)
Definition Process32First (dwSize : Z) (snap : Snapshot)
  : option (PROCESSENTRY32 * list PROCESSENTRY32) :=
  if Process32_accepts os dwSize then
    match snap_processes snap with
    | [] => None
    | e :: cursor => Some (e, cursor)
    end
  else None.

Definition Process32Next (dwSize : Z) (cursor : list PROCESSENTRY32)
  : option (PROCESSENTRY32 * list PROCESSENTRY32) :=
  if Process32_accepts os dwSize then
    match cursor with
    | [] => None
    | e :: cursor' => Some (e, cursor')
    end
  else None.

Definition Module32First (dwSize : Z) (snap : Snapshot)
  : option (MODULEENTRY32 * list MODULEENTRY32) :=
  if Module32_accepts os dwSize then
    match snap_modules snap with
    | [] => None
    | e :: cursor => Some (e, cursor)
    end
  else None.

Definition Module32Next (dwSize : Z) (cursor : list MODULEENTRY32)
  : option (MODULEENTRY32 * list MODULEENTRY32) :=
  if Module32_accepts os dwSize then
    match cursor with
    | [] => None
    | e :: cursor' => Some (e, cursor')
    end
  else None.

(** ** [struct HandleDisposer] and [winapi_raii_types::unique_handle] *)

(** [handle != INVALID_HANDLE_VALUE || handle != nullptr] *)
Definition HandleDisposer_guard (handle : HANDLE) : bool :=
  negb (handle =? INVALID_HANDLE_VALUE (arch os)) || negb (handle =? nullptr).

(** [void HandleDisposer::operator()(HANDLE handle) const] *)
Definition HandleDisposer (handle : HANDLE) : M os unit :=
  if HandleDisposer_guard handle
  then CloseHandle handle ;;; ret tt
  else ret tt.

(** [~unique_ptr()]: the deleter runs unless the stored pointer is null. *)
Definition unique_handle_dtor (h : HANDLE) : M os unit :=
  if h =? nullptr then ret tt else HandleDisposer h.

(** Destruction of a [std::optional<unique_handle>]. *)
Definition optional_handle_dtor (o : option HANDLE) : M os unit :=
  match o with
  | Some h => unique_handle_dtor h
  | None => ret tt
  end.

(** [std::optional<T>::value()] *)
Definition value {A : Type} (o : option A) : M os A :=
  match o with
  | Some a => ret a
  | None => throw bad_optional_access
  end.

(** ** Private member functions *)

(** The [while (Process32Next(...) == TRUE)] loop of [AcquireProcessID],
    by recursion on the entries the cursor still holds: every turn starts
    with a call of [Process32Next], whose answer is [Process32Next dwSize
    cursor] ([AcquireProcessID_while_step]). *)
Fixpoint AcquireProcessID_while (snapshot_handle : HANDLE) (process_name : string)
         (dwSize : Z) (cursor : list PROCESSENTRY32) : M os (option DWORD) :=
  enumerate (CallProcess32Next snapshot_handle dwSize) tt ;;;
  match cursor with
  | [] => ret None
  | processentry :: cursor' =>
      if Process32_accepts os dwSize then
        if view_eq_cstr process_name (szExeFile processentry)
        then ret (Some (th32ProcessID processentry))
        else AcquireProcessID_while snapshot_handle process_name dwSize cursor'
      else ret None
  end.

(** [std::optional<std::uint32_t> AcquireProcessID(std::string_view) const noexcept] *)
Definition AcquireProcessID (process_name : string) : M os (option DWORD) :=
  '(snapshot_handle, snap) <- CreateToolhelp32Snapshot TH32CS_SNAPPROCESS 0 ;;
  if snapshot_handle =? INVALID_HANDLE_VALUE (arch os) then
    unique_handle_dtor snapshot_handle ;;; ret None
  else
    let dwSize := sizeof_MODULEENTRY32 os in
    first <- enumerate (CallProcess32First snapshot_handle dwSize)
                       (Process32First dwSize snap) ;;
    result <- match first with
              | Some (_, cursor) =>
                  AcquireProcessID_while snapshot_handle process_name dwSize cursor
              | None => ret None
              end ;;
    unique_handle_dtor snapshot_handle ;;; ret result.

(** [std::optional<std::uint32_t> AcquireProcessIDByWindowName(const std::string&) const noexcept] *)
Definition AcquireProcessIDByWindowName (window_name : string) : M os (option DWORD) :=
  window_handle <- FindWindowA None (c_str window_name) ;;
  if window_handle =? nullptr then ret None
  else
    '(thread_id, stored) <- GetWindowThreadProcessId window_handle ;;
    let temp_process_id := match stored with Some p => p | None => 0 end in
    if thread_id =? 0 then ret None
    else ret (Some temp_process_id).

(** [std::optional<unique_handle> CreateProcessHandle(std::uint32_t, DWORD) const noexcept] *)
Definition CreateProcessHandle (process_id : DWORD) (processFlags : DWORD)
  : M os (option HANDLE) :=
  processhandle <- OpenProcess processFlags false process_id ;;
  if processhandle =? nullptr then
    unique_handle_dtor processhandle ;;; ret None
  else ret (Some processhandle).

(** [bool AcquireProcessHandle(const std::optional<std::uint32_t>&, DWORD) noexcept].
    The assignment to [m_processHandle] destroys the handle the member
    held before, if any. *)
Definition AcquireProcessHandle (this : SafeMemory) (process_id : option DWORD)
           (processFlags : DWORD) : M os (bool * SafeMemory) :=
  match process_id with
  | None => ret (false, this)
  | Some pid =>
      created <- CreateProcessHandle pid processFlags ;;
      optional_handle_dtor (m_processHandle this) ;;;
      let this' := {| m_processHandle := created; m_processID := m_processID this |} in
      if negb (has_value (m_processHandle this')) then ret (false, this')
      else ret (true, this')
  end.

(** ** Constructors and destructor *)

(** The members before a constructor body runs: both optionals are empty. *)
Definition default_members : SafeMemory :=
  {| m_processHandle := None; m_processID := None |}.

Definition Failed_to_open : exn :=
  std_exception "Failed to open a handle to the specified process".

(** What the three constructor bodies share from the [if] on: when
    [AcquireProcessHandle] answers [false] the exception leaves the
    constructor and the members built so far are destroyed. *)
Definition finish_construction (acquired : bool * SafeMemory) (process_id : option DWORD)
  : M os SafeMemory :=
  let (ok, this) := acquired in
  if negb ok then
    optional_handle_dtor (m_processHandle this) ;;; throw Failed_to_open
  else
    ret {| m_processHandle := m_processHandle this; m_processID := process_id |}.

(** [explicit SafeMemory(std::string_view process_name, const SafeMemory_Access)] *)
Definition SafeMemory_by_name (process_name : string) (processFlags : SafeMemory_Access)
  : M os SafeMemory :=
  process_id <- AcquireProcessID process_name ;;
  pid <- value process_id ;;
  acquired <- AcquireProcessHandle default_members (Some pid) (access_flags processFlags) ;;
  finish_construction acquired process_id.

(** [explicit SafeMemory(const std::string& window_name, const SafeMemory_Access, bool min_window)] *)
Definition SafeMemory_by_window (window_name : string) (processFlags : SafeMemory_Access)
           (min_window : bool) : M os SafeMemory :=
  process_id <- AcquireProcessIDByWindowName window_name ;;
  pid <- value process_id ;;
  acquired <- AcquireProcessHandle default_members (Some pid) (access_flags processFlags) ;;
  finish_construction acquired process_id.

(** [explicit SafeMemory(const std::optional<std::uint32_t>& process_id, const SafeMemory_Access)] *)
Definition SafeMemory_by_id (process_id : option DWORD) (processFlags : SafeMemory_Access)
  : M os SafeMemory :=
  acquired <- AcquireProcessHandle default_members process_id (access_flags processFlags) ;;
  finish_construction acquired process_id.

(** [~SafeMemory() {}]: the members are destroyed. *)
Definition SafeMemory_dtor (this : SafeMemory) : M os unit :=
  optional_handle_dtor (m_processHandle this).

(** ** Public member functions *)

(** The [while (Module32Next(...) == TRUE)] loop of [GetModuleBaseAddress]:
    every turn starts with a call of [Module32Next]
    ([GetModuleBaseAddress_while_step]). *)
Fixpoint GetModuleBaseAddress_while (snapshot_handle : HANDLE) (module_name : string)
         (dwSize : Z) (cursor : list MODULEENTRY32) : M os (option Z) :=
  enumerate (CallModule32Next snapshot_handle dwSize) tt ;;;
  match cursor with
  | [] => ret None
  | moduleentry :: cursor' =>
      if Module32_accepts os dwSize then
        if view_eq_cstr module_name (szModule moduleentry)
        then ret (Some (modBaseAddr moduleentry))
        else GetModuleBaseAddress_while snapshot_handle module_name dwSize cursor'
      else ret None
  end.

(** [std::optional<std::uintptr_t> GetModuleBaseAddress(std::string_view) const noexcept] *)
Definition GetModuleBaseAddress (this : SafeMemory) (module_name : string)
  : M os (option Z) :=
  match m_processID this with
  | None => ret None
  | Some pid =>
      '(snapshot_handle, snap) <-
        CreateToolhelp32Snapshot (Z.lor TH32CS_SNAPMODULE TH32CS_SNAPMODULE32) pid ;;
      if snapshot_handle =? INVALID_HANDLE_VALUE (arch os) then
        unique_handle_dtor snapshot_handle ;;; ret None
      else
        let dwSize := sizeof_MODULEENTRY32 os in
        first <- enumerate (CallModule32First snapshot_handle dwSize)
                           (Module32First dwSize snap) ;;
        result <- match first with
                  | Some (_, cursor) =>
                      GetModuleBaseAddress_while snapshot_handle module_name dwSize cursor
                  | None => ret None
                  end ;;
        unique_handle_dtor snapshot_handle ;;; ret result
  end.

(** [template<typename T> std::optional<T> SafeReadMemory(std::uintptr_t) const noexcept] *)
Definition SafeReadMemory (T : Type) `{Layout T} (this : SafeMemory) (address_ptr : Z)
  : M os (option T) :=
  match m_processHandle this with
  | None => ret None
  | Some h =>
      transferred <- ReadProcessMemory h address_ptr (sizeof T) ;;
      match transferred with
      | None => ret None
      | Some buffer => ret (Some (from_bytes buffer))
      end
  end.

(** [template<typename T> bool SafeWriteMemory(std::uintptr_t, const T&) const noexcept] *)
Definition SafeWriteMemory {T : Type} `{Layout T} (this : SafeMemory) (address_ptr : Z)
           (length : T) : M os bool :=
  match m_processHandle this with
  | None => ret false
  | Some h =>
      done <- WriteProcessMemory h address_ptr (object_bytes length) ;;
      if negb done then ret false else ret true
  end.

End SafeMemoryClass.

Arguments SafeReadMemory os T {_} this address_ptr.
Arguments SafeWriteMemory os {T _} this address_ptr length.

(** ** The public interface seen by a client *)

(** A call of one of the three public member functions.  All three are
    [const]: the object a client holds after the call is the object it
    held before. *)
Inductive PublicCall : Type :=
| Call_GetModuleBaseAddress (module_name : string)
| Call_SafeReadMemory (T : Type) (L : Layout T) (address_ptr : Z)
| Call_SafeWriteMemory (T : Type) (L : Layout T) (address_ptr : Z) (length : T).

Definition invoke (os : Win32) (this : SafeMemory) (c : PublicCall) : M os SafeMemory :=
  match c with
  | Call_GetModuleBaseAddress module_name =>
      GetModuleBaseAddress os this module_name ;;; ret this
  | Call_SafeReadMemory T L address_ptr =>
      SafeReadMemory os T this address_ptr ;;; ret this
  | Call_SafeWriteMemory T L address_ptr length =>
      SafeWriteMemory os this address_ptr length ;;; ret this
  end.

Fixpoint invoke_all (os : Win32) (this : SafeMemory) (cs : list PublicCall)
  : M os SafeMemory :=
  match cs with
  | [] => ret this
  | c :: cs' => this' <- invoke os this c ;; invoke_all os this' cs'
  end.

(** The three ways to construct the object. *)
Inductive Construction : Set :=
| By_name (process_name : string) (processFlags : SafeMemory_Access)
| By_window (window_name : string) (processFlags : SafeMemory_Access) (min_window : bool)
| By_id (process_id : option DWORD) (processFlags : SafeMemory_Access).

Definition construct (os : Win32) (c : Construction) : M os SafeMemory :=
  match c with
  | By_name n f => SafeMemory_by_name os n f
  | By_window n f m => SafeMemory_by_window os n f m
  | By_id p f => SafeMemory_by_id os p f
  end.

(** The identifier a constructor works with, after its resolution step. *)
Definition resolve (os : Win32) (c : Construction) : M os (option DWORD) :=
  match c with
  | By_name n _ => AcquireProcessID os n
  | By_window n _ _ => AcquireProcessIDByWindowName os n
  | By_id p _ => ret p
  end.

Definition construction_flags (c : Construction) : SafeMemory_Access :=
  match c with
  | By_name _ f => f
  | By_window _ f _ => f
  | By_id _ f => f
  end.

(** ** Some layouts *)

(** [std::uint8_t] *)
#[export] Instance Layout_uint8_t : Layout byte := {|
  sizeof := 1;
  object_bytes := fun b => [b];
  from_bytes := fun l => hd x00 l
|}.

(** [std::uint32_t] and [std::int32_t], by their four bytes, least
    significant first. *)
Record word32 : Set := {
  byte0 : byte;
  byte1 : byte;
  byte2 : byte;
  byte3 : byte
}.

Definition byte_of_Z (z : Z) : byte :=
  match Byte.of_N (Z.to_N (z mod 256)) with
  | Some b => b
  | None => x00
  end.

Definition Z_of_byte (b : byte) : Z := Z.of_N (Byte.to_N b).

Definition word32_of_Z (z : Z) : word32 :=
  {| byte0 := byte_of_Z z;
     byte1 := byte_of_Z (Z.shiftr z 8);
     byte2 := byte_of_Z (Z.shiftr z 16);
     byte3 := byte_of_Z (Z.shiftr z 24) |}.

Definition word32_unsigned (w : word32) : Z :=
  Z_of_byte (byte0 w) + 256 * (Z_of_byte (byte1 w)
    + 256 * (Z_of_byte (byte2 w) + 256 * Z_of_byte (byte3 w))).

#[export] Instance Layout_word32 : Layout word32 := {|
  sizeof := 4;
  object_bytes := fun w => [byte0 w; byte1 w; byte2 w; byte3 w];
  from_bytes := fun l =>
    {| byte0 := nth 0 l x00; byte1 := nth 1 l x00;
       byte2 := nth 2 l x00; byte3 := nth 3 l x00 |}
|}.

(** A [struct] of two members laid out back to back. *)
#[export] Instance Layout_pair (A B : Type) `{Layout A} `{Layout B} : Layout (A * B) := {|
  sizeof := (sizeof A + sizeof B)%nat;
  object_bytes := fun p => object_bytes (fst p) ++ object_bytes (snd p);
  from_bytes := fun l =>
    (from_bytes (firstn (sizeof A) l), from_bytes (skipn (sizeof A) l))
|}.

(** ** A small machine implementing [Win32]

    One target process with a window, a few mapped bytes and the access
    checks of the real calls: reading needs [PROCESS_VM_READ], writing
    needs [PROCESS_VM_WRITE] and [PROCESS_VM_OPERATION]. *)
Module Demo.

Record Machine : Type := {
  memory : Z -> option byte;
  granted : option DWORD
}.

Definition target_pid : DWORD := 4242.
Definition target_handle : HANDLE := 100.
Definition process_snapshot : HANDLE := 200.
Definition module_snapshot : HANDLE := 204.
Definition target_window : HWND := 1280.

Fixpoint load (m : Z -> option byte) (addr : Z) (n : nat) : option (list byte) :=
  match n with
  | O => Some []
  | S k =>
      match m addr, load m (addr + 1) k with
      | Some b, Some r => Some (b :: r)
      | _, _ => None
      end
  end.

Fixpoint store (m : Z -> option byte) (addr : Z) (bs : list byte)
  : option (Z -> option byte) :=
  match bs with
  | [] => Some m
  | b :: r =>
      match m addr with
      | Some _ => store (fun a => if a =? addr then Some b else m a) (addr + 1) r
      | None => None
      end
  end.

Definition allows (right : DWORD) (w : Machine) : bool :=
  match granted w with
  | Some access => Z.land access right =? right
  | None => false
  end.

Definition machine (processes : list PROCESSENTRY32) (modules : list MODULEENTRY32)
  : Win32 := {|
  arch := W32;
  World := Machine;
  sizeof_MODULEENTRY32 := 548;
  Process32_accepts := fun dwSize => 296 <=? dwSize;
  Module32_accepts := fun dwSize => 548 <=? dwSize;
  os_CreateToolhelp32Snapshot := fun flags pid w =>
    if flags =? TH32CS_SNAPPROCESS then
      (process_snapshot, {| snap_processes := processes; snap_modules := [] |}, w)
    else if (flags =? 24) && (pid =? target_pid) then
      (module_snapshot, {| snap_processes := []; snap_modules := modules |}, w)
    else
      (INVALID_HANDLE_VALUE W32, {| snap_processes := []; snap_modules := [] |}, w);
  os_FindWindowA := fun _ title w =>
    if String.eqb title "Target Window" then (target_window, w) else (nullptr, w);
  os_GetWindowThreadProcessId := fun hwnd w =>
    if hwnd =? target_window then (77, Some target_pid, w) else (0, None, w);
  os_OpenProcess := fun access _ pid w =>
    if pid =? target_pid
    then (target_handle, {| memory := memory w; granted := Some access |})
    else (nullptr, w);
  os_CloseHandle := fun h w =>
    if h =? target_handle
    then (true, {| memory := memory w; granted := None |})
    else ((h =? process_snapshot) || (h =? module_snapshot), w);
  os_ReadProcessMemory := fun h addr size w =>
    if (h =? target_handle) && allows PROCESS_VM_READ w
    then (load (memory w) addr size, w)
    else (None, w);
  os_WriteProcessMemory := fun h addr bytes w =>
    if (h =? target_handle) && allows (Z.lor PROCESS_VM_WRITE PROCESS_VM_OPERATION) w
    then match store (memory w) addr bytes with
         | Some m => (true, {| memory := m; granted := granted w |})
         | None => (false, w)
         end
    else (false, w)
|}.

Definition processes : list PROCESSENTRY32 :=
  [ {| th32ProcessID := 0; szExeFile := "[System Process]" |};
    {| th32ProcessID := 4; szExeFile := "System" |};
    {| th32ProcessID := 4242; szExeFile := "target.exe" |};
    {| th32ProcessID := 5000; szExeFile := "target.exe" |} ].

Definition modules : list MODULEENTRY32 :=
  [ {| modBaseAddr := 4194304; szModule := "target.exe" |};
    {| modBaseAddr := 1996488704; szModule := "ntdll.dll" |};
    {| modBaseAddr := 1979711488; szModule := "KERNEL32.DLL" |} ].

Definition os : Win32 := machine processes modules.

(** Two instances of one executable, the first of them heading the
    snapshot; and the machine that runs only them. *)
Definition twins : list PROCESSENTRY32 :=
  [ {| th32ProcessID := 4242; szExeFile := "target.exe" |};
    {| th32ProcessID := 5000; szExeFile := "target.exe" |} ].

Definition twin_os : Win32 := machine twins modules.

(** Sixteen mapped bytes at [4194304 ..], all zero; no handle is open. *)
Definition boot : Machine := {|
  memory := fun a => if (4194304 <=? a) && (a <? 4194320) then Some x00 else None;
  granted := None
|}.

Definition start (o : Win32) (w : World o) : Sys o := {| world := w; calls := [] |}.

(** The machine once the target is open with all access, and the object
    that holds the handle. *)
Definition opened : Machine := {|
  memory := memory boot;
  granted := Some PROCESS_ALL_ACCESS
|}.

Definition attached : SafeMemory := {|
  m_processHandle := Some target_handle;
  m_processID := Some target_pid
|}.

End Demo.

(** ** Reference notions used by the statements *)

(** The specification's [resolve_by_name] on a snapshot: the identifier of
    the first entry, in enumeration order, whose executable file name is
    exactly the given name. *)
Definition spec_resolve_by_name (name : string) (snapshot : list PROCESSENTRY32)
  : option DWORD :=
  option_map th32ProcessID
             (find (fun e => view_eq_cstr name (szExeFile e)) snapshot).

(** The specification's [find_module_base] on a snapshot: the base address
    of the first entry, in enumeration order, whose module file name is
    exactly the given name. *)
Definition spec_find_module_base (name : string) (snapshot : list MODULEENTRY32)
  : option Z :=
  option_map modBaseAddr
             (find (fun e => view_eq_cstr name (szModule e)) snapshot).

(** The value [AcquireProcessID] computes from the answer of
    [CreateToolhelp32Snapshot]: the first match among the entries that
    follow the first one. *)
Definition AcquireProcessID_value (os : Win32) (name : string) (w : World os) : option DWORD :=
  let (snapshot_handle, snap) := fst (os_CreateToolhelp32Snapshot os TH32CS_SNAPPROCESS 0 w) in
  if snapshot_handle =? INVALID_HANDLE_VALUE (arch os) then None
  else if Process32_accepts os (sizeof_MODULEENTRY32 os)
       then spec_resolve_by_name name (tl (snap_processes snap))
       else None.

(** The value [GetModuleBaseAddress] computes for a stored identifier from
    the answer of [CreateToolhelp32Snapshot]. *)
Definition GetModuleBaseAddress_value (os : Win32) (pid : DWORD) (name : string)
           (w : World os) : option Z :=
  let (snapshot_handle, snap) :=
    fst (os_CreateToolhelp32Snapshot os (Z.lor TH32CS_SNAPMODULE TH32CS_SNAPMODULE32) pid w) in
  if snapshot_handle =? INVALID_HANDLE_VALUE (arch os) then None
  else if Module32_accepts os (sizeof_MODULEENTRY32 os)
       then spec_find_module_base name (tl (snap_modules snap))
       else None.

(** A computation that always returns normally: the meaning of [noexcept]
    for the functions above. *)
Definition returns {os : Win32} {A : Type} (c : M os A) : Prop :=
  forall s, exists a s', c s = (Ok a, s').

(** Sequential memory: what a successful write stored is what a later
    successful read of the same range delivers. *)
Definition reads_back_writes (os : Win32) : Prop :=
  forall h addr bytes w w' got w'',
    os_WriteProcessMemory os h addr bytes w = (true, w') ->
    os_ReadProcessMemory os h addr (length bytes) w' = (Some got, w'') ->
    got = bytes.

(** The answer of [CreateToolhelp32Snapshot(TH32CS_SNAPPROCESS, 0)] in a
    state of the system: the handle and what it denotes. *)
Definition process_snapshot_of (os : Win32) (w : World os) : HANDLE * Snapshot :=
  fst (os_CreateToolhelp32Snapshot os TH32CS_SNAPPROCESS 0 w).

(** The answer of
    [CreateToolhelp32Snapshot(TH32CS_SNAPMODULE | TH32CS_SNAPMODULE32, pid)]. *)
Definition module_snapshot_of (os : Win32) (pid : DWORD) (w : World os)
  : HANDLE * Snapshot :=
  fst (os_CreateToolhelp32Snapshot os (Z.lor TH32CS_SNAPMODULE TH32CS_SNAPMODULE32) pid w).

(** The state once a [unique_handle] holding [h] has been destroyed. *)
Definition released (os : Win32) (h : HANDLE) (s : Sys os) : Sys os :=
  if h =? nullptr then s
  else {| world := snd (os_CloseHandle os h (world s));
          calls := calls s ++ [CallCloseHandle h] |}.

(** The WINAPI calls that do not choose a target and that a public member
    function may make: module snapshots, their enumeration and release,
    and transfers. *)
Definition keeps_target (c : Call) : bool :=
  match c with
  | CallCreateToolhelp32Snapshot _ _ => true
  | CallModule32First _ _ => true
  | CallModule32Next _ _ => true
  | CallProcess32First _ _ => false
  | CallProcess32Next _ _ => false
  | CallCloseHandle _ => true
  | CallReadProcessMemory _ _ _ => true
  | CallWriteProcessMemory _ _ _ => true
  | CallFindWindowA _ => false
  | CallGetWindowThreadProcessId _ => false
  | CallOpenProcess _ _ _ => false
  end.

(** How many times the [while] loop of a lookup calls the [Next]
    function on a cursor: once per entry up to and including the first
    match, and once more, for the answer [FALSE], when there is none. *)
Fixpoint scanned {E : Type} (matches : E -> bool) (cursor : list E) : nat :=
  match cursor with
  | [] => 1
  | e :: cursor' => if matches e then 1 else S (scanned matches cursor')
  end.

(** The enumeration calls of [AcquireProcessID] on a created snapshot:
    [Process32First] and, if it succeeded, the calls of [Process32Next]. *)
Definition Process32_calls (os : Win32) (h : HANDLE) (name : string) (snap : Snapshot)
  : list Call :=
  CallProcess32First h (sizeof_MODULEENTRY32 os) ::
  match Process32First os (sizeof_MODULEENTRY32 os) snap with
  | Some (_, cursor) =>
      repeat (CallProcess32Next h (sizeof_MODULEENTRY32 os))
             (scanned (fun e => view_eq_cstr name (szExeFile e)) cursor)
  | None => []
  end.

(** The enumeration calls of [GetModuleBaseAddress] on a created snapshot. *)
Definition Module32_calls (os : Win32) (h : HANDLE) (name : string) (snap : Snapshot)
  : list Call :=
  CallModule32First h (sizeof_MODULEENTRY32 os) ::
  match Module32First os (sizeof_MODULEENTRY32 os) snap with
  | Some (_, cursor) =>
      repeat (CallModule32Next h (sizeof_MODULEENTRY32 os))
             (scanned (fun e => view_eq_cstr name (szModule e)) cursor)
  | None => []
  end.

(** A name with a NUL in the middle, as a [std::string_view] can hold. *)
Definition name_with_NUL : string :=
  String "a" (String Ascii.zero (String "b" EmptyString)).

(** * Properties *)

(** ** Running the monad *)

Create HintDb noexcept.

Section Running.

Variable os : Win32.

Lemma run_bind {A B : Type} (c : M os A) (k : A -> M os B) (s : Sys os) :
  bind c k s =
  match c s with
  | (Ok a, s') => k a s'
  | (Throw e, s') => (Throw e, s')
  end.
Proof. reflexivity. Qed.

Lemma run_bind_ok {A B : Type} (c : M os A) (k : A -> M os B) s a s' :
  c s = (Ok a, s') -> bind c k s = k a s'.
Proof. intros E. unfold bind. now rewrite E. Qed.

Lemma run_winapi {A : Type} (c : Call) (f : World os -> A * World os) (s : Sys os) :
  winapi c f s =
  (Ok (fst (f (world s))),
   {| world := snd (f (world s)); calls := calls s ++ [c] |}).
Proof. unfold winapi. now destruct (f (world s)). Qed.

Lemma run_enumerate {A : Type} (c : Call) (answer : A) (s : Sys os) :
  enumerate os c answer s =
  (Ok answer, {| world := world s; calls := calls s ++ [c] |}).
Proof. reflexivity. Qed.

Lemma returns_ret {A : Type} (a : A) : returns (@ret os A a).
Proof. intros s. now exists a, s. Qed.

Lemma returns_winapi {A : Type} (c : Call) (f : World os -> A * World os) :
  returns (winapi c f).
Proof. intros s. rewrite run_winapi. eauto. Qed.

Lemma returns_bind {A B : Type} (c : M os A) (k : A -> M os B) :
  returns c -> (forall a, returns (k a)) -> returns (bind c k).
Proof.
  intros Hc Hk s. destruct (Hc s) as (a & s' & E).
  rewrite (run_bind_ok _ _ _ _ _ E). apply Hk.
Qed.

End Running.

#[local] Hint Resolve returns_ret returns_winapi returns_bind : noexcept.

(** ** Handles *)

Lemma INVALID_HANDLE_VALUE_not_null (a : PtrWidth) :
  INVALID_HANDLE_VALUE a <> nullptr.
Proof. destruct a; vm_compute; discriminate. Qed.

Section Handles.

Variable os : Win32.

Lemma HandleDisposer_guard_true (handle : HANDLE) :
  HandleDisposer_guard os handle = true.
Proof.
  unfold HandleDisposer_guard.
  destruct (Z.eqb_spec handle nullptr) as [E | E]; [ | now rewrite orb_true_r].
  destruct (Z.eqb_spec handle (INVALID_HANDLE_VALUE (arch os))) as [E' | E']; [ | reflexivity].
  exfalso. apply (INVALID_HANDLE_VALUE_not_null (arch os)). congruence.
Qed.

Lemma returns_HandleDisposer (h : HANDLE) : returns (HandleDisposer os h).
Proof.
  unfold HandleDisposer, CloseHandle.
  destruct (HandleDisposer_guard os h); auto with noexcept.
Qed.

Lemma returns_unique_handle_dtor (h : HANDLE) : returns (unique_handle_dtor os h).
Proof.
  unfold unique_handle_dtor.
  destruct (h =? nullptr); auto using returns_HandleDisposer with noexcept.
Qed.

Lemma returns_optional_handle_dtor (o : option HANDLE) :
  returns (optional_handle_dtor os o).
Proof.
  destruct o; simpl; auto using returns_unique_handle_dtor with noexcept.
Qed.

(** Destroying a [unique_handle] that holds a non-null pointer closes it,
    whatever the pointer is: the snapshot handle of a failed
    [CreateToolhelp32Snapshot] is passed to [CloseHandle] too. *)
Lemma unique_handle_dtor_closes (h : HANDLE) (s : Sys os) :
  h <> nullptr ->
  unique_handle_dtor os h s =
  (Ok tt, {| world := snd (os_CloseHandle os h (world s));
             calls := calls s ++ [CallCloseHandle h] |}).
Proof.
  intros N. unfold unique_handle_dtor, HandleDisposer.
  destruct (Z.eqb_spec h nullptr); [contradiction | ].
  rewrite HandleDisposer_guard_true. unfold CloseHandle.
  rewrite run_bind, run_winapi. reflexivity.
Qed.

Lemma unique_handle_dtor_run (h : HANDLE) (s : Sys os) :
  unique_handle_dtor os h s = (Ok tt, released os h s).
Proof.
  unfold released. destruct (Z.eqb_spec h nullptr) as [-> | N]; [reflexivity | ].
  now apply unique_handle_dtor_closes.
Qed.

End Handles.

#[local] Hint Resolve returns_HandleDisposer returns_unique_handle_dtor
  returns_optional_handle_dtor : noexcept.

(** C9. The guard of [HandleDisposer::operator()] holds for every handle
    value, so the call passes every handle it is given to [CloseHandle],
    [nullptr] and [INVALID_HANDLE_VALUE] included: the run makes exactly
    that one WINAPI call, whatever the state of the system. *)
Theorem HandleDisposer_always_closes (os : Win32) (handle : HANDLE) (s : Sys os) :
  HandleDisposer_guard os handle = true /\
  HandleDisposer os handle s =
  (Ok tt, {| world := snd (os_CloseHandle os handle (world s));
             calls := calls s ++ [CallCloseHandle handle] |}) /\
  HandleDisposer os nullptr s =
  (Ok tt, {| world := snd (os_CloseHandle os nullptr (world s));
             calls := calls s ++ [CallCloseHandle nullptr] |}) /\
  HandleDisposer os (INVALID_HANDLE_VALUE (arch os)) s =
  (Ok tt, {| world := snd (os_CloseHandle os (INVALID_HANDLE_VALUE (arch os)) (world s));
             calls := calls s ++ [CallCloseHandle (INVALID_HANDLE_VALUE (arch os))] |}).
Proof.
  assert (G : forall h, HandleDisposer os h s =
    (Ok tt, {| world := snd (os_CloseHandle os h (world s));
               calls := calls s ++ [CallCloseHandle h] |})).
  { intros h. unfold HandleDisposer. rewrite HandleDisposer_guard_true.
    unfold CloseHandle. rewrite run_bind, run_winapi. reflexivity. }
  split; [apply HandleDisposer_guard_true | ].
  repeat split; apply G.
Qed.

(** ** Process resolution *)

Section Resolution.

Variable os : Win32.

(** The loop is the iteration of [Process32Next]. *)
Lemma AcquireProcessID_while_step (h : HANDLE) (name : string) (dwSize : Z)
      (cursor : list PROCESSENTRY32) (s : Sys os) :
  AcquireProcessID_while os h name dwSize cursor s =
  bind (enumerate os (CallProcess32Next h dwSize) (Process32Next os dwSize cursor))
       (fun next =>
          match next with
          | Some (processentry, cursor') =>
              if view_eq_cstr name (szExeFile processentry)
              then ret (Some (th32ProcessID processentry))
              else AcquireProcessID_while os h name dwSize cursor'
          | None => ret None
          end) s.
Proof.
  unfold Process32Next.
  destruct cursor as [ | e cursor']; simpl; rewrite !run_bind, !run_enumerate;
    now destruct (Process32_accepts os dwSize).
Qed.

(** On the entries it is given, the loop finds the first match; it calls
    [Process32Next] once per entry it examines. *)
Lemma AcquireProcessID_while_run (h : HANDLE) (name : string) (dwSize : Z)
      (cursor : list PROCESSENTRY32) :
  forall s,
    AcquireProcessID_while os h name dwSize cursor s =
    (Ok (if Process32_accepts os dwSize then spec_resolve_by_name name cursor else None),
     {| world := world s;
        calls := calls s ++
                 repeat (CallProcess32Next h dwSize)
                        (if Process32_accepts os dwSize
                         then scanned (fun e => view_eq_cstr name (szExeFile e)) cursor
                         else 1) |}).
Proof.
  unfold spec_resolve_by_name.
  induction cursor as [ | e cursor IH]; intros s; simpl;
    rewrite run_bind, run_enumerate.
  - now destruct (Process32_accepts os dwSize).
  - destruct (Process32_accepts os dwSize) eqn:Acc; [ | reflexivity].
    destruct (view_eq_cstr name (szExeFile e)); [reflexivity | ].
    rewrite IH, ?Acc. simpl. now rewrite <- app_assoc.
Qed.

(** Full run of [AcquireProcessID]: its value, the first match among the
    entries after the one [Process32First] delivered, and the state it
    leaves. *)
Lemma AcquireProcessID_state (name : string) (s : Sys os) :
  AcquireProcessID os name s =
  (Ok (AcquireProcessID_value os name (world s)),
   released os (fst (process_snapshot_of os (world s)))
            {| world := snd (os_CreateToolhelp32Snapshot os TH32CS_SNAPPROCESS 0 (world s));
               calls := calls s ++
                        CallCreateToolhelp32Snapshot TH32CS_SNAPPROCESS 0 ::
                        (if fst (process_snapshot_of os (world s))
                            =? INVALID_HANDLE_VALUE (arch os)
                         then []
                         else Process32_calls os (fst (process_snapshot_of os (world s))) name
                                              (snd (process_snapshot_of os (world s)))) |}).
Proof.
  unfold AcquireProcessID, AcquireProcessID_value, process_snapshot_of,
    CreateToolhelp32Snapshot.
  rewrite run_bind, run_winapi.
  destruct (fst (os_CreateToolhelp32Snapshot os TH32CS_SNAPPROCESS 0 (world s)))
    as [h snap].
  simpl fst. simpl snd.
  destruct (h =? INVALID_HANDLE_VALUE (arch os)).
  - rewrite run_bind, unique_handle_dtor_run. reflexivity.
  - rewrite run_bind, run_enumerate. unfold Process32_calls, Process32First.
    destruct (Process32_accepts os (sizeof_MODULEENTRY32 os)) eqn:Acc.
    + destruct (snap_processes snap) as [ | e cursor].
      * rewrite run_bind. unfold ret at 1. cbv beta iota.
        rewrite run_bind, unique_handle_dtor_run.
        unfold ret. cbn [world calls]. now rewrite <- app_assoc.
      * rewrite run_bind, AcquireProcessID_while_run, Acc, run_bind,
          unique_handle_dtor_run.
        unfold ret. cbn [world calls tl]. now rewrite <- !app_assoc.
    + rewrite run_bind. unfold ret at 1. cbv beta iota.
      rewrite run_bind, unique_handle_dtor_run.
      unfold ret. cbn [world calls]. now rewrite <- app_assoc.
Qed.

(** [AcquireProcessID] returns, and its result is the first match among
    the entries after the one [Process32First] delivered. *)
Lemma AcquireProcessID_run (name : string) (s : Sys os) :
  exists s', AcquireProcessID os name s = (Ok (AcquireProcessID_value os name (world s)), s').
Proof. eexists. apply AcquireProcessID_state. Qed.

Lemma spec_resolve_by_name_sound (name : string) (l : list PROCESSENTRY32) (pid : DWORD) :
  spec_resolve_by_name name l = Some pid ->
  exists e, In e l /\ th32ProcessID e = pid /\ name = c_str (szExeFile e).
Proof.
  unfold spec_resolve_by_name. intros H.
  destruct (find _ l) as [e | ] eqn:F; [ | discriminate].
  apply find_some in F. destruct F as [I Eq]. exists e.
  simpl in H. injection H as <-. repeat split; [exact I | ].
  now apply String.eqb_eq.
Qed.

Lemma spec_resolve_by_name_none (name : string) (l : list PROCESSENTRY32) :
  (forall e, In e l -> name <> c_str (szExeFile e)) ->
  spec_resolve_by_name name l = None.
Proof.
  intros H. unfold spec_resolve_by_name.
  destruct (find _ l) as [e | ] eqn:F; [ | reflexivity].
  apply find_some in F. destruct F as [I Eq].
  apply String.eqb_eq in Eq. now apply H in I.
Qed.

Lemma In_tl {A : Type} (x : A) (l : list A) : In x (tl l) -> In x l.
Proof. destruct l; simpl; auto. Qed.

(** The value [AcquireProcessIDByWindowName] computes from the answers of
    [FindWindowA] and [GetWindowThreadProcessId]. *)
Lemma AcquireProcessIDByWindowName_run (window_name : string) (s : Sys os) :
  let found := os_FindWindowA os None (c_str window_name) (world s) in
  let owner := os_GetWindowThreadProcessId os (fst found) (snd found) in
  exists s',
    AcquireProcessIDByWindowName os window_name s =
    (Ok (if fst found =? nullptr then None
         else if fst (fst owner) =? 0 then None
         else Some (match snd (fst owner) with Some p => p | None => 0 end)),
     s').
Proof.
  intros found owner. subst owner found.
  unfold AcquireProcessIDByWindowName, FindWindowA, GetWindowThreadProcessId, bind, winapi.
  destruct (os_FindWindowA os None (c_str window_name) (world s)) as [hwnd w1].
  simpl. destruct (hwnd =? nullptr); [eexists; reflexivity | ].
  simpl. destruct (os_GetWindowThreadProcessId os hwnd w1) as [[tid stored] w2].
  simpl. destruct (tid =? 0); eexists; reflexivity.
Qed.

End Resolution.

(** C5. Both resolutions return normally, with an absent result on every
    failure: for [AcquireProcessID] when the snapshot cannot be created,
    when [Process32First] fails and when no entry of the snapshot bears
    the name; for [AcquireProcessIDByWindowName] when no window is found
    and when the owning process cannot be obtained.  A present result is
    never partial: it is the identifier of an entry of the snapshot that
    bears the name, respectively the identifier the system stored for a
    window that was found and whose owner was obtained. *)
Theorem resolution_failures_are_absent (os : Win32) (name : string) (s : Sys os) :
  let snapshot := fst (os_CreateToolhelp32Snapshot os TH32CS_SNAPPROCESS 0 (world s)) in
  let found := os_FindWindowA os None (c_str name) (world s) in
  let owner := fst (os_GetWindowThreadProcessId os (fst found) (snd found)) in
  (exists r s',
      AcquireProcessID os name s = (Ok r, s') /\
      (fst snapshot = INVALID_HANDLE_VALUE (arch os) -> r = None) /\
      (Process32First os (sizeof_MODULEENTRY32 os) (snd snapshot) = None -> r = None) /\
      ((forall e, In e (snap_processes (snd snapshot)) -> name <> c_str (szExeFile e)) ->
       r = None) /\
      (forall pid, r = Some pid ->
         fst snapshot <> INVALID_HANDLE_VALUE (arch os) /\
         exists e, In e (snap_processes (snd snapshot)) /\
                   th32ProcessID e = pid /\ name = c_str (szExeFile e)))
  /\
  (exists r s',
      AcquireProcessIDByWindowName os name s = (Ok r, s') /\
      (fst found = nullptr -> r = None) /\
      (fst owner = 0 -> r = None) /\
      (forall pid, r = Some pid ->
         fst found <> nullptr /\ fst owner <> 0 /\
         pid = match snd owner with Some p => p | None => 0 end)).
Proof.
  intros snapshot found owner. split.
  - destruct (AcquireProcessID_run os name s) as (s' & E).
    exists (AcquireProcessID_value os name (world s)), s'.
    split; [exact E | ]. clear E.
    unfold AcquireProcessID_value. fold snapshot.
    destruct snapshot as [h snap]. simpl fst. simpl snd.
    unfold Process32First.
    destruct (Z.eqb_spec h (INVALID_HANDLE_VALUE (arch os))) as [Inv | Val].
    { repeat apply conj; try reflexivity; intros; discriminate. }
    destruct (Process32_accepts os (sizeof_MODULEENTRY32 os)).
    + split; [intros Bad; contradiction | ].
      split; [destruct (snap_processes snap); [reflexivity | discriminate] | ].
      split.
      * intros No. apply spec_resolve_by_name_none.
        intros e I. apply No. now apply In_tl.
      * intros pid H. split; [exact Val | ].
        apply spec_resolve_by_name_sound in H.
        destruct H as (e & I & P & N). exists e. auto using In_tl.
    + repeat apply conj; try reflexivity; intros; discriminate.
  - destruct (AcquireProcessIDByWindowName_run os name s) as (s' & E).
    fold found in E. fold owner in E.
    eexists; exists s'. split; [exact E | ].
    destruct (Z.eqb_spec (fst found) nullptr) as [N | N].
    { repeat apply conj; try reflexivity; intros; discriminate. }
    destruct (Z.eqb_spec (fst owner) 0) as [O | O].
    { repeat apply conj; try reflexivity; intros; try discriminate; contradiction. }
    split; [intros; contradiction | ].
    split; [intros; contradiction | ].
    intros pid H. injection H as <-. auto.
Qed.

(** Where [AcquireProcessID] and the specification agree: the snapshot
    was created, [dwSize] was accepted and the first entry of the snapshot
    does not bear the name. *)
Lemma AcquireProcessID_agrees_past_head (os : Win32) (name : string) (w : World os) :
  let snapshot := fst (os_CreateToolhelp32Snapshot os TH32CS_SNAPPROCESS 0 w) in
  fst snapshot <> INVALID_HANDLE_VALUE (arch os) ->
  Process32_accepts os (sizeof_MODULEENTRY32 os) = true ->
  (forall e, hd_error (snap_processes (snd snapshot)) = Some e ->
             name <> c_str (szExeFile e)) ->
  AcquireProcessID_value os name w =
  spec_resolve_by_name name (snap_processes (snd snapshot)).
Proof.
  intros snapshot Val Acc Head. unfold AcquireProcessID_value. fold snapshot.
  destruct snapshot as [h snap]. simpl in *.
  destruct (Z.eqb_spec h (INVALID_HANDLE_VALUE (arch os))); [contradiction | ].
  rewrite Acc. destruct (snap_processes snap) as [ | e l]; [reflexivity | ].
  simpl. unfold spec_resolve_by_name. simpl.
  destruct (view_eq_cstr name (szExeFile e)) eqn:Eq; [ | reflexivity].
  apply String.eqb_eq in Eq. now destruct (Head e eq_refl).
Qed.

(** C1, evaluated.  On a machine whose process snapshot begins with two
    instances of [target.exe] (identifiers 4242 and 5000, in this order),
    [AcquireProcessID] answers 5000: the entry delivered by
    [Process32First] is never compared, and the scan starts at the second
    entry.  The first match in enumeration order is 4242. *)
Theorem AcquireProcessID_skips_first_entry :
  fst (AcquireProcessID Demo.twin_os "target.exe" (Demo.start Demo.twin_os Demo.boot))
  = Ok (Some 5000) /\
  spec_resolve_by_name "target.exe" Demo.twins = Some 4242 /\
  fst (AcquireProcessID Demo.os "[System Process]" (Demo.start Demo.os Demo.boot))
  = Ok None /\
  spec_resolve_by_name "[System Process]" Demo.processes = Some 0.
Proof. repeat split; vm_compute; reflexivity. Qed.

(** ** Module enumeration *)

Section Modules.

Variable os : Win32.

Lemma GetModuleBaseAddress_while_step (h : HANDLE) (name : string) (dwSize : Z)
      (cursor : list MODULEENTRY32) (s : Sys os) :
  GetModuleBaseAddress_while os h name dwSize cursor s =
  bind (enumerate os (CallModule32Next h dwSize) (Module32Next os dwSize cursor))
       (fun next =>
          match next with
          | Some (moduleentry, cursor') =>
              if view_eq_cstr name (szModule moduleentry)
              then ret (Some (modBaseAddr moduleentry))
              else GetModuleBaseAddress_while os h name dwSize cursor'
          | None => ret None
          end) s.
Proof.
  unfold Module32Next.
  destruct cursor as [ | e cursor']; simpl; rewrite !run_bind, !run_enumerate;
    now destruct (Module32_accepts os dwSize).
Qed.

Lemma GetModuleBaseAddress_while_run (h : HANDLE) (name : string) (dwSize : Z)
      (cursor : list MODULEENTRY32) :
  forall s,
    GetModuleBaseAddress_while os h name dwSize cursor s =
    (Ok (if Module32_accepts os dwSize then spec_find_module_base name cursor else None),
     {| world := world s;
        calls := calls s ++
                 repeat (CallModule32Next h dwSize)
                        (if Module32_accepts os dwSize
                         then scanned (fun e => view_eq_cstr name (szModule e)) cursor
                         else 1) |}).
Proof.
  unfold spec_find_module_base.
  induction cursor as [ | e cursor IH]; intros s; simpl;
    rewrite run_bind, run_enumerate.
  - now destruct (Module32_accepts os dwSize).
  - destruct (Module32_accepts os dwSize) eqn:Acc; [ | reflexivity].
    destruct (view_eq_cstr name (szModule e)); [reflexivity | ].
    rewrite IH, ?Acc. simpl. now rewrite <- app_assoc.
Qed.

(** Full run of [GetModuleBaseAddress] on an object with an identifier. *)
Lemma GetModuleBaseAddress_state (this : SafeMemory) (pid : DWORD)
      (name : string) (s : Sys os) :
  m_processID this = Some pid ->
  GetModuleBaseAddress os this name s =
  (Ok (GetModuleBaseAddress_value os pid name (world s)),
   released os (fst (module_snapshot_of os pid (world s)))
            {| world := snd (os_CreateToolhelp32Snapshot
                               os (Z.lor TH32CS_SNAPMODULE TH32CS_SNAPMODULE32) pid (world s));
               calls := calls s ++
                        CallCreateToolhelp32Snapshot
                          (Z.lor TH32CS_SNAPMODULE TH32CS_SNAPMODULE32) pid ::
                        (if fst (module_snapshot_of os pid (world s))
                            =? INVALID_HANDLE_VALUE (arch os)
                         then []
                         else Module32_calls os (fst (module_snapshot_of os pid (world s))) name
                                             (snd (module_snapshot_of os pid (world s)))) |}).
Proof.
  intros Id.
  unfold GetModuleBaseAddress, GetModuleBaseAddress_value, module_snapshot_of,
    CreateToolhelp32Snapshot.
  rewrite Id, run_bind, run_winapi.
  destruct (fst (os_CreateToolhelp32Snapshot os _ pid (world s))) as [h snap].
  simpl fst. simpl snd.
  destruct (h =? INVALID_HANDLE_VALUE (arch os)).
  - rewrite run_bind, unique_handle_dtor_run. reflexivity.
  - rewrite run_bind, run_enumerate. unfold Module32_calls, Module32First.
    destruct (Module32_accepts os (sizeof_MODULEENTRY32 os)) eqn:Acc.
    + destruct (snap_modules snap) as [ | e cursor].
      * rewrite run_bind. unfold ret at 1. cbv beta iota.
        rewrite run_bind, unique_handle_dtor_run.
        unfold ret. cbn [world calls]. now rewrite <- app_assoc.
      * rewrite run_bind, GetModuleBaseAddress_while_run, Acc, run_bind,
          unique_handle_dtor_run.
        unfold ret. cbn [world calls tl]. now rewrite <- !app_assoc.
    + rewrite run_bind. unfold ret at 1. cbv beta iota.
      rewrite run_bind, unique_handle_dtor_run.
      unfold ret. cbn [world calls]. now rewrite <- app_assoc.
Qed.

(** [GetModuleBaseAddress] returns; without an identifier it makes no
    WINAPI call, with one its result is the first match among the entries
    after the one [Module32First] delivered. *)
Lemma GetModuleBaseAddress_run (this : SafeMemory) (name : string) (s : Sys os) :
  exists s',
    GetModuleBaseAddress os this name s =
    (Ok (match m_processID this with
         | None => None
         | Some pid => GetModuleBaseAddress_value os pid name (world s)
         end), s') /\
    (m_processID this = None -> s' = s).
Proof.
  destruct (m_processID this) as [pid | ] eqn:Id.
  - eexists. split; [now apply GetModuleBaseAddress_state | discriminate].
  - exists s. unfold GetModuleBaseAddress. now rewrite Id.
Qed.

Lemma spec_find_module_base_none (name : string) (l : list MODULEENTRY32) :
  (forall e, In e l -> name <> c_str (szModule e)) ->
  spec_find_module_base name l = None.
Proof.
  intros H. unfold spec_find_module_base.
  destruct (find _ l) as [e | ] eqn:F; [ | reflexivity].
  apply find_some in F. destruct F as [I Eq].
  apply String.eqb_eq in Eq. now apply H in I.
Qed.

(** The part of the module lookup that does not depend on which entry is
    compared first: [GetModuleBaseAddress] never throws, and its result is
    absent when the object holds no identifier, when the snapshot cannot
    be created and when no module of the snapshot bears the name. *)
Lemma GetModuleBaseAddress_absent (this : SafeMemory) (name : string) (s : Sys os) :
  exists r s',
    GetModuleBaseAddress os this name s = (Ok r, s') /\
    (m_processID this = None -> r = None) /\
    (forall pid,
        m_processID this = Some pid ->
        let snapshot :=
          fst (os_CreateToolhelp32Snapshot
                 os (Z.lor TH32CS_SNAPMODULE TH32CS_SNAPMODULE32) pid (world s)) in
        (fst snapshot = INVALID_HANDLE_VALUE (arch os) -> r = None) /\
        ((forall e, In e (snap_modules (snd snapshot)) -> name <> c_str (szModule e)) ->
         r = None)).
Proof.
  destruct (GetModuleBaseAddress_run this name s) as (s' & E & _).
  eexists; exists s'. split; [exact E | ].
  destruct (m_processID this) as [pid | ].
  - split; [discriminate | ]. intros pid' [= <-] snapshot.
    unfold GetModuleBaseAddress_value. fold snapshot.
    destruct snapshot as [h snap]. simpl fst. simpl snd.
    destruct (Z.eqb_spec h (INVALID_HANDLE_VALUE (arch os))) as [Inv | Val].
    { split; reflexivity. }
    split; [intros; contradiction | ].
    intros No. destruct (Module32_accepts os (sizeof_MODULEENTRY32 os)); [ | reflexivity].
    apply spec_find_module_base_none. intros e I. apply No. now apply In_tl.
  - split; [reflexivity | discriminate].
Qed.

End Modules.

(** C2, evaluated.  The object is constructed for [target.exe] with read
    access; the module snapshot of the target lists [target.exe] first, at
    base address 4194304.  [GetModuleBaseAddress] holds an identifier, the
    snapshot is created, and the result for ["target.exe"] is absent: the
    entry delivered by [Module32First] is never compared.  For the second
    module the result is its base address. *)
Theorem GetModuleBaseAddress_skips_first_entry :
  let s0 := Demo.start Demo.os Demo.boot in
  let lookup (name : string) :=
    fst (bind (SafeMemory_by_name Demo.os "target.exe" SafeMemory_ReadAccess)
              (fun this => GetModuleBaseAddress Demo.os this name) s0) in
  fst (SafeMemory_by_name Demo.os "target.exe" SafeMemory_ReadAccess s0)
  = Ok {| m_processHandle := Some Demo.target_handle;
          m_processID := Some Demo.target_pid |} /\
  lookup "target.exe"%string = Ok None /\
  spec_find_module_base "target.exe" Demo.modules = Some 4194304 /\
  lookup "ntdll.dll"%string = Ok (Some 1996488704).
Proof. repeat split; vm_compute; reflexivity. Qed.

(** ** Handle acquisition and construction *)

Section Construction.

Variable os : Win32.

(** The state after [OpenProcess flags FALSE pid]. *)
Lemma CreateProcessHandle_run (pid flags : DWORD) (s : Sys os) :
  let opened := os_OpenProcess os flags false pid (world s) in
  CreateProcessHandle os pid flags s =
  (Ok (if fst opened =? nullptr then None else Some (fst opened)),
   {| world := snd opened; calls := calls s ++ [CallOpenProcess flags false pid] |}).
Proof.
  intros opened. unfold CreateProcessHandle, OpenProcess.
  rewrite run_bind, run_winapi. fold opened.
  destruct (Z.eqb_spec (fst opened) nullptr) as [E | E]; [ | reflexivity].
  rewrite E. reflexivity.
Qed.

(** [AcquireProcessHandle] on the members of an object under construction. *)
Lemma AcquireProcessHandle_run (pid flags : DWORD) (s : Sys os) :
  let opened := os_OpenProcess os flags false pid (world s) in
  let created := if fst opened =? nullptr then None else Some (fst opened) in
  AcquireProcessHandle os default_members (Some pid) flags s =
  (Ok (has_value created, {| m_processHandle := created; m_processID := None |}),
   {| world := snd opened; calls := calls s ++ [CallOpenProcess flags false pid] |}).
Proof.
  intros opened created. unfold AcquireProcessHandle.
  rewrite run_bind, CreateProcessHandle_run. fold opened. fold created.
  simpl. now destruct created.
Qed.

(** Without an identifier [AcquireProcessHandle] answers [false] and
    leaves the object, the system and the trace as they were. *)
Lemma AcquireProcessHandle_empty (this : SafeMemory) (flags : DWORD) (s : Sys os) :
  AcquireProcessHandle os this None flags s = (Ok (false, this), s).
Proof. reflexivity. Qed.

(** What the remainder of a constructor does once the identifier is
    known. *)
Lemma finish_after_acquire (pid : DWORD) (flags : DWORD) (s : Sys os) :
  let opened := os_OpenProcess os flags false pid (world s) in
  bind (AcquireProcessHandle os default_members (Some pid) flags)
       (fun acquired => finish_construction os acquired (Some pid)) s =
  (if fst opened =? nullptr then Throw Failed_to_open
   else Ok {| m_processHandle := Some (fst opened); m_processID := Some pid |},
   {| world := snd opened; calls := calls s ++ [CallOpenProcess flags false pid] |}).
Proof.
  intros opened. rewrite run_bind, AcquireProcessHandle_run. fold opened.
  now destruct (fst opened =? nullptr).
Qed.

Lemma returns_resolve (c : Construction) : returns (resolve os c).
Proof.
  intros s. destruct c as [n f | n f m | p f]; simpl.
  - destruct (AcquireProcessID_run os n s) as (s' & E). eauto.
  - destruct (AcquireProcessIDByWindowName_run os n s) as (s' & E). eauto.
  - now exists p, s.
Qed.

(** Every run of a constructor, in terms of its resolution step and of
    the answer of [OpenProcess]. *)
Lemma construct_run (c : Construction) (s : Sys os) :
  exists r s1,
    resolve os c s = (Ok r, s1) /\
    match r with
    | None =>
        construct os c s =
        (Throw (match c with
                | By_id _ _ => Failed_to_open
                | _ => bad_optional_access
                end), s1)
    | Some pid =>
        let opened :=
          os_OpenProcess os (access_flags (construction_flags c)) false pid (world s1) in
        construct os c s =
        (if fst opened =? nullptr then Throw Failed_to_open
         else Ok {| m_processHandle := Some (fst opened); m_processID := Some pid |},
         {| world := snd opened;
            calls := calls s1 ++
                     [CallOpenProcess (access_flags (construction_flags c)) false pid] |})
    end.
Proof.
  destruct (returns_resolve c s) as (r & s1 & E). exists r, s1.
  split; [exact E | ].
  destruct c as [n f | n f m | p f]; simpl in E |- *.
  - unfold SafeMemory_by_name. rewrite (run_bind_ok _ _ _ _ _ _ E).
    destruct r as [pid | ]; [ | reflexivity].
    simpl value. rewrite run_bind. unfold ret at 1. apply finish_after_acquire.
  - unfold SafeMemory_by_window. rewrite (run_bind_ok _ _ _ _ _ _ E).
    destruct r as [pid | ]; [ | reflexivity].
    simpl value. rewrite run_bind. unfold ret at 1. apply finish_after_acquire.
  - unfold ret in E. injection E as <- <-.
    destruct p as [pid | ]; [ | reflexivity].
    apply finish_after_acquire.
Qed.

(** A constructor whose resolution found nothing, or whose [OpenProcess]
    answered [NULL], leaves by an exception: no object comes out of it. *)
Lemma construct_fails (c : Construction) (s : Sys os) (r : option DWORD) (s1 : Sys os) :
  resolve os c s = (Ok r, s1) ->
  (r = None \/
   exists pid, r = Some pid /\
     fst (os_OpenProcess os (access_flags (construction_flags c)) false pid (world s1))
     = nullptr) ->
  exists e s', construct os c s = (Throw e, s').
Proof.
  intros E Fail. destruct (construct_run c s) as (r' & s1' & E' & Run).
  rewrite E in E'. injection E' as <- <-.
  destruct Fail as [-> | (pid & -> & Null)].
  - eauto.
  - simpl in Run. rewrite Null in Run. simpl in Run. eauto.
Qed.

(** When it is the acquisition that fails, the exception is the
    constructor's own. *)
Lemma construct_fails_to_open (c : Construction) (s : Sys os) (pid : DWORD) (s1 : Sys os) :
  resolve os c s = (Ok (Some pid), s1) ->
  fst (os_OpenProcess os (access_flags (construction_flags c)) false pid (world s1))
  = nullptr ->
  exists s', construct os c s = (Throw Failed_to_open, s').
Proof.
  intros E Null. destruct (construct_run c s) as (r' & s1' & E' & Run).
  rewrite E in E'. injection E' as <- <-.
  simpl in Run. rewrite Null in Run. simpl in Run. eauto.
Qed.

End Construction.

(** C3, evaluated.  No process is called [absent.exe] and no window is
    titled [No Such Window].  The constructors by name and by window title
    leave with [std::bad_optional_access], thrown by [process_id.value()]
    before [AcquireProcessHandle] is entered, and not with the exception
    the constructor builds; the constructor by identifier, given an empty
    optional, leaves with the constructor's exception, and so does the
    constructor by name when the process exists and cannot be opened. *)
Theorem unresolved_name_throws_bad_optional_access :
  let s0 := Demo.start Demo.os Demo.boot in
  fst (AcquireProcessID Demo.os "absent.exe" s0) = Ok None /\
  fst (SafeMemory_by_name Demo.os "absent.exe" SafeMemory_AllAccess s0)
  = Throw bad_optional_access /\
  fst (AcquireProcessIDByWindowName Demo.os "No Such Window" s0) = Ok None /\
  fst (SafeMemory_by_window Demo.os "No Such Window" SafeMemory_AllAccess false s0)
  = Throw bad_optional_access /\
  fst (SafeMemory_by_id Demo.os None SafeMemory_AllAccess s0) = Throw Failed_to_open /\
  fst (SafeMemory_by_id Demo.os (Some 7) SafeMemory_AllAccess s0) = Throw Failed_to_open /\
  bad_optional_access <> Failed_to_open.
Proof. repeat split; try (vm_compute; reflexivity). discriminate. Qed.

(** C10. Given an empty optional identifier, [AcquireProcessHandle]
    answers [false] with the object, the system and the trace of WINAPI
    calls unchanged (so [OpenProcess] is not called and the handle member
    stays empty), and the constructor leaves with its exception in that
    same state: no object, no call, no handle. *)
Theorem construction_from_empty_identifier_fails
        (os : Win32) (processFlags : SafeMemory_Access) (s : Sys os) :
  AcquireProcessHandle os default_members None (access_flags processFlags) s
  = (Ok (false, default_members), s) /\
  m_processHandle default_members = None /\
  SafeMemory_by_id os None processFlags s = (Throw Failed_to_open, s).
Proof. repeat split. Qed.

(** C8. The constructor by window title does the same for both values of
    [min_window]: same result (the same object or the same exception),
    same final state of the system, same WINAPI calls. *)
Theorem min_window_is_ignored
        (os : Win32) (window_name : string) (processFlags : SafeMemory_Access)
        (s : Sys os) :
  SafeMemory_by_window os window_name processFlags true s =
  SafeMemory_by_window os window_name processFlags false s.
Proof. reflexivity. Qed.

(** ** Typed memory access *)

Section MemoryAccess.

Variable os : Win32.
Context {T : Type} {L : Layout T}.

Lemma SafeReadMemory_run (this : SafeMemory) (address_ptr : Z) (s : Sys os) :
  SafeReadMemory os T this address_ptr s =
  match m_processHandle this with
  | None => (Ok None, s)
  | Some h =>
      let transfer := os_ReadProcessMemory os h address_ptr (sizeof T) (world s) in
      (Ok (option_map from_bytes (fst transfer)),
       {| world := snd transfer;
          calls := calls s ++ [CallReadProcessMemory h address_ptr (sizeof T)] |})
  end.
Proof.
  unfold SafeReadMemory. destruct (m_processHandle this) as [h | ]; [ | reflexivity].
  unfold ReadProcessMemory. rewrite run_bind, run_winapi.
  now destruct (fst (os_ReadProcessMemory os h address_ptr (sizeof T) (world s))).
Qed.

Lemma SafeWriteMemory_run (this : SafeMemory) (address_ptr : Z) (length : T) (s : Sys os) :
  SafeWriteMemory os this address_ptr length s =
  match m_processHandle this with
  | None => (Ok false, s)
  | Some h =>
      let transfer := os_WriteProcessMemory os h address_ptr (object_bytes length) (world s) in
      (Ok (fst transfer),
       {| world := snd transfer;
          calls := calls s ++ [CallWriteProcessMemory h address_ptr (object_bytes length)] |})
  end.
Proof.
  unfold SafeWriteMemory. destruct (m_processHandle this) as [h | ]; [ | reflexivity].
  unfold WriteProcessMemory. rewrite run_bind, run_winapi.
  now destruct (fst (os_WriteProcessMemory os h address_ptr (object_bytes length) (world s))).
Qed.

Lemma returns_SafeReadMemory (this : SafeMemory) (address_ptr : Z) :
  returns (SafeReadMemory os T this address_ptr).
Proof.
  intros s. rewrite SafeReadMemory_run. destruct (m_processHandle this); eauto.
Qed.

Lemma returns_SafeWriteMemory (this : SafeMemory) (address_ptr : Z) (length : T) :
  returns (SafeWriteMemory os this address_ptr length).
Proof.
  intros s. rewrite SafeWriteMemory_run. destruct (m_processHandle this); eauto.
Qed.

End MemoryAccess.

(** C4. [SafeReadMemory] and [SafeWriteMemory] return normally.  The read
    is absent exactly when the handle member is empty or
    [ReadProcessMemory], asked for [sizeof(T)] bytes at the address
    through the stored handle, fails; otherwise it is the value of the
    bytes the call stored.  The write is [false] exactly when the handle
    member is empty or [WriteProcessMemory], given the bytes of the
    value, fails, and [true] otherwise. *)
Theorem memory_access_outcomes
        (os : Win32) (T : Type) (L : Layout T)
        (this : SafeMemory) (address_ptr : Z) (length : T) (s : Sys os) :
  (exists r s',
      SafeReadMemory os T this address_ptr s = (Ok r, s') /\
      (r = None <->
       m_processHandle this = None \/
       exists h, m_processHandle this = Some h /\
                 fst (os_ReadProcessMemory os h address_ptr (sizeof T) (world s)) = None) /\
      (forall h buffer,
          m_processHandle this = Some h ->
          fst (os_ReadProcessMemory os h address_ptr (sizeof T) (world s)) = Some buffer ->
          r = Some (from_bytes buffer)))
  /\
  (exists b s',
      SafeWriteMemory os this address_ptr length s = (Ok b, s') /\
      (b = false <->
       m_processHandle this = None \/
       exists h, m_processHandle this = Some h /\
                 fst (os_WriteProcessMemory os h address_ptr (object_bytes length) (world s))
                 = false) /\
      (forall h,
          m_processHandle this = Some h ->
          fst (os_WriteProcessMemory os h address_ptr (object_bytes length) (world s)) = true ->
          b = true)).
Proof.
  split.
  - rewrite SafeReadMemory_run. destruct (m_processHandle this) as [h | ].
    + simpl. eexists; eexists. split; [reflexivity | ]. split; [split | ].
      * intros N. right. exists h. split; [reflexivity | ].
        now destruct (fst (os_ReadProcessMemory os h address_ptr (sizeof T) (world s))).
      * intros [N | (h' & [= <-] & N)]; [discriminate | ]. now rewrite N.
      * intros h' buffer [= <-] E. now rewrite E.
    + exists None, s. split; [reflexivity | ]. split; [split; auto | discriminate].
  - rewrite SafeWriteMemory_run. destruct (m_processHandle this) as [h | ].
    + simpl. eexists; eexists. split; [reflexivity | ]. split; [split | ].
      * intros N. right. exists h. now split.
      * intros [N | (h' & [= <-] & N)]; [discriminate | exact N].
      * intros h' [= <-] E. exact E.
    + exists false, s. split; [reflexivity | ]. split; [split; auto | discriminate].
Qed.

(** ** Layouts *)

#[export] Instance LayoutOk_uint8_t : LayoutOk byte.
Proof. split; reflexivity. Qed.

#[export] Instance LayoutOk_word32 : LayoutOk word32.
Proof. split; intros []; reflexivity. Qed.

#[export] Instance LayoutOk_pair (A B : Type) `{LayoutOk A} `{LayoutOk B} :
  LayoutOk (A * B).
Proof.
  split.
  - intros [a b]. simpl. now rewrite length_app, !object_bytes_length.
  - intros [a b]. simpl.
    rewrite <- (object_bytes_length a).
    rewrite firstn_app, firstn_all, Nat.sub_diag, firstn_O, app_nil_r.
    rewrite skipn_app, skipn_all, Nat.sub_diag, skipn_O. simpl.
    now rewrite !from_object_bytes.
Qed.

Lemma Z_of_byte_of_Z (x : Z) : Z_of_byte (byte_of_Z x) = x mod 256.
Proof.
  unfold Z_of_byte, byte_of_Z.
  assert (Hx : 0 <= x mod 256 < 256) by (apply Z.mod_pos_bound; lia).
  destruct (Byte.of_N (Z.to_N (x mod 256))) as [b | ] eqn:E.
  - apply Byte.to_of_N in E. rewrite E. lia.
  - apply Byte.of_N_None_iff in E. lia.
Qed.

(** The four bytes of a [word32] are the base-256 digits of its value. *)
Lemma word32_unsigned_of_Z (z : Z) :
  0 <= z < 4294967296 -> word32_unsigned (word32_of_Z z) = z.
Proof.
  intros R. unfold word32_unsigned, word32_of_Z.
  cbn [byte0 byte1 byte2 byte3].
  rewrite !Z_of_byte_of_Z, !Z.shiftr_div_pow2 by lia.
  change (2 ^ 8) with 256. change (2 ^ 16) with 65536.
  change (2 ^ 24) with 16777216.
  Z.to_euclidean_division_equations; lia.
Qed.

(** ** The memory of the demonstration machine *)

Lemma Demo_store_below (bs : list byte) :
  forall m addr m' x,
    Demo.store m addr bs = Some m' -> x < addr -> m' x = m x.
Proof.
  induction bs as [ | b r IH]; simpl; intros m addr m' x St Lt.
  - now injection St as <-.
  - destruct (m addr); [ | discriminate].
    rewrite (IH _ _ _ x St) by lia.
    destruct (Z.eqb_spec x addr); [lia | reflexivity].
Qed.

Lemma Demo_load_store (bs : list byte) :
  forall m addr m',
    Demo.store m addr bs = Some m' -> Demo.load m' addr (length bs) = Some bs.
Proof.
  induction bs as [ | b r IH]; simpl; intros m addr m' St; [reflexivity | ].
  destruct (m addr); [ | discriminate].
  rewrite (Demo_store_below _ _ _ _ addr St) by lia.
  rewrite Z.eqb_refl, (IH _ _ _ St). reflexivity.
Qed.

Lemma Demo_reads_back_writes (processes : list PROCESSENTRY32)
      (modules : list MODULEENTRY32) :
  reads_back_writes (Demo.machine processes modules).
Proof.
  intros h addr bytes w w' got w'' Wr Rd.
  cbn [Demo.machine os_WriteProcessMemory os_ReadProcessMemory] in Wr, Rd.
  destruct ((h =? Demo.target_handle) &&
            Demo.allows (Z.lor PROCESS_VM_WRITE PROCESS_VM_OPERATION) w);
    [ | discriminate Wr].
  destruct (Demo.store (Demo.memory w) addr bytes) as [m | ] eqn:St;
    [ | discriminate Wr].
  injection Wr as <-.
  destruct ((h =? Demo.target_handle) && Demo.allows PROCESS_VM_READ _);
    [ | discriminate Rd].
  cbn [Demo.memory] in Rd. rewrite (Demo_load_store _ _ _ _ St) in Rd. congruence.
Qed.

(** C7. On a system whose memory is sequential, for a type whose object
    representation determines its value: when [SafeWriteMemory] of [v] at
    an address succeeds and the following [SafeReadMemory<T>] at the same
    address succeeds (the instance may read there), the value read is
    [v]. *)
Theorem write_then_read_round_trip
        (os : Win32) (T : Type) (L : Layout T) (OkT : LayoutOk T)
        (this : SafeMemory) (address_ptr : Z) (v r : T) (s s1 s2 : Sys os) :
  reads_back_writes os ->
  SafeWriteMemory os this address_ptr v s = (Ok true, s1) ->
  SafeReadMemory os T this address_ptr s1 = (Ok (Some r), s2) ->
  r = v.
Proof.
  intros Seq Wr Rd.
  rewrite SafeWriteMemory_run in Wr. rewrite SafeReadMemory_run in Rd.
  destruct (m_processHandle this) as [h | ]; [ | discriminate].
  simpl in Wr, Rd.
  destruct (os_WriteProcessMemory os h address_ptr (object_bytes v) (world s))
    as [done w'] eqn:W.
  simpl in Wr. injection Wr as -> <-. simpl in Rd.
  rewrite <- (object_bytes_length v) in Rd.
  destruct (os_ReadProcessMemory os h address_ptr (length (object_bytes v)) w')
    as [[got | ] w''] eqn:R; simpl in Rd; [ | discriminate].
  injection Rd as <- _.
  rewrite (Seq _ _ _ _ _ _ _ W R). apply from_object_bytes.
Qed.

(** The scenario of the specification: 42 is written as a 32-bit value
    and read back, on the demonstration machine. *)
Lemma write_then_read_round_trip_witness :
  let s := Demo.start Demo.os Demo.opened in
  exists s1 s2 r,
    SafeWriteMemory Demo.os Demo.attached 4194308 (word32_of_Z 42) s = (Ok true, s1) /\
    SafeReadMemory Demo.os word32 Demo.attached 4194308 s1 = (Ok (Some r), s2) /\
    r = word32_of_Z 42.
Proof.
  intros s. eexists. eexists. eexists.
  split; [reflexivity | ]. split; [reflexivity | ].
  eapply (write_then_read_round_trip Demo.os word32 _ _ Demo.attached 4194308
            (word32_of_Z 42) _ s _ _ (Demo_reads_back_writes _ _)).
  - reflexivity.
  - reflexivity.
Defined.

(** ** The object after construction *)

Lemma forallb_repeat {A : Type} (f : A -> bool) (x : A) (n : nat) :
  f x = true -> forallb f (repeat x n) = true.
Proof. intros F. induction n as [ | n IH]; simpl; [reflexivity | now rewrite F, IH]. Qed.

Lemma Module32_calls_keep_target (os : Win32) (h : HANDLE) (name : string)
      (snap : Snapshot) :
  forallb keeps_target (Module32_calls os h name snap) = true.
Proof.
  unfold Module32_calls. simpl.
  destruct (Module32First os (sizeof_MODULEENTRY32 os) snap) as [[e cursor] | ];
    [now apply forallb_repeat | reflexivity].
Qed.

Lemma Module32_calls_close_nothing (os : Win32) (h' : HANDLE) (name : string)
      (snap : Snapshot) (h : HANDLE) :
  ~ In (CallCloseHandle h) (Module32_calls os h' name snap).
Proof.
  unfold Module32_calls. intros [E | I]; [discriminate | ].
  destruct (Module32First os (sizeof_MODULEENTRY32 os) snap) as [[e cursor] | ];
    [ | exact I].
  apply repeat_spec in I. discriminate.
Qed.

Section Lifetime.

Variable os : Win32.

Lemma returns_GetModuleBaseAddress (this : SafeMemory) (name : string) :
  returns (GetModuleBaseAddress os this name).
Proof.
  intros s. destruct (GetModuleBaseAddress_run os this name s) as (s' & E & _). eauto.
Qed.

(** A public call hands back the object it was made on. *)
Lemma invoke_keeps_object (this : SafeMemory) (c : PublicCall) (s : Sys os) :
  exists s', invoke os this c s = (Ok this, s').
Proof.
  destruct c as [name | T L addr | T L addr v]; simpl.
  - destruct (returns_GetModuleBaseAddress this name s) as (r & s' & E).
    rewrite (run_bind_ok _ _ _ _ _ _ E). now exists s'.
  - destruct (returns_SafeReadMemory os this addr s) as (r & s' & E).
    rewrite (run_bind_ok _ _ _ _ _ _ E). now exists s'.
  - destruct (returns_SafeWriteMemory os this addr v s) as (r & s' & E).
    rewrite (run_bind_ok _ _ _ _ _ _ E). now exists s'.
Qed.

Lemma invoke_all_keeps_object (this : SafeMemory) (cs : list PublicCall) :
  forall s, exists s', invoke_all os this cs s = (Ok this, s').
Proof.
  induction cs as [ | c cs IH]; intros s; simpl.
  - now exists s.
  - destruct (invoke_keeps_object this c s) as (s1 & E).
    rewrite (run_bind_ok _ _ _ _ _ _ E). apply IH.
Qed.

(** The WINAPI calls of one public call: none of them chooses a target,
    and the only handle that is closed is the one the module snapshot of
    this very call answered. *)
Lemma invoke_trace (this : SafeMemory) (c : PublicCall) (s : Sys os) :
  exists s' added,
    invoke os this c s = (Ok this, s') /\
    calls s' = calls s ++ added /\
    forallb keeps_target added = true /\
    forall h, In (CallCloseHandle h) added ->
              exists pid, m_processID this = Some pid /\
                          h = fst (module_snapshot_of os pid (world s)).
Proof.
  destruct c as [name | T L addr | T L addr v]; simpl; rewrite run_bind.
  - destruct (m_processID this) as [pid | ] eqn:Id.
    + rewrite (GetModuleBaseAddress_state os this pid name s Id).
      unfold ret, released.
      set (h' := fst (module_snapshot_of os pid (world s))).
      set (inner := if h' =? INVALID_HANDLE_VALUE (arch os) then []
                    else Module32_calls os h' name (snd (module_snapshot_of os pid (world s)))).
      assert (K : forallb keeps_target inner = true).
      { subst inner. destruct (h' =? INVALID_HANDLE_VALUE (arch os));
          [reflexivity | apply Module32_calls_keep_target]. }
      assert (N : forall h, ~ In (CallCloseHandle h) inner).
      { intros h. subst inner. destruct (h' =? INVALID_HANDLE_VALUE (arch os));
          [intros [] | apply Module32_calls_close_nothing]. }
      destruct (h' =? nullptr).
      * eexists. eexists. split; [reflexivity | ]. split; [reflexivity | ].
        split; [exact K | ].
        intros h [E | I]; [discriminate | now apply N in I].
      * eexists. eexists. split; [reflexivity | ]. cbn [calls].
        rewrite <- app_assoc. split; [reflexivity | ]. split.
        -- simpl. now rewrite forallb_app, K.
        -- intros h [E | I]; [discriminate | ].
           apply in_app_or in I. destruct I as [I | [E | []]]; [now apply N in I | ].
           injection E as <-. eauto.
    + unfold GetModuleBaseAddress. rewrite Id. exists s, [].
      split; [reflexivity | ]. split; [now rewrite app_nil_r | ].
      split; [reflexivity | intros h []].
  - rewrite SafeReadMemory_run. destruct (m_processHandle this) as [h0 | ].
    + eexists. eexists. split; [reflexivity | ]. split; [reflexivity | ].
      split; [reflexivity | ]. intros h [E | []]. discriminate.
    + exists s, []. split; [reflexivity | ]. split; [now rewrite app_nil_r | ].
      split; [reflexivity | intros h []].
  - rewrite SafeWriteMemory_run. destruct (m_processHandle this) as [h0 | ].
    + eexists. eexists. split; [reflexivity | ]. split; [reflexivity | ].
      split; [reflexivity | ]. intros h [E | []]. discriminate.
    + exists s, []. split; [reflexivity | ]. split; [now rewrite app_nil_r | ].
      split; [reflexivity | intros h []].
Qed.

Lemma invoke_all_trace (this : SafeMemory) (cs : list PublicCall) :
  forall s,
  exists s' added,
    invoke_all os this cs s = (Ok this, s') /\
    calls s' = calls s ++ added /\
    forallb keeps_target added = true /\
    forall h, In (CallCloseHandle h) added ->
              exists pid w, m_processID this = Some pid /\
                            h = fst (module_snapshot_of os pid w).
Proof.
  induction cs as [ | c cs IH]; intros s; simpl.
  - exists s, []. split; [reflexivity | ]. split; [now rewrite app_nil_r | ].
    split; [reflexivity | intros h []].
  - destruct (invoke_trace this c s) as (s1 & a1 & E & C1 & K1 & H1).
    rewrite (run_bind_ok _ _ _ _ _ _ E).
    destruct (IH s1) as (s2 & a2 & E2 & C2 & K2 & H2).
    exists s2, (a1 ++ a2). split; [exact E2 | ].
    split; [now rewrite C2, C1, <- app_assoc | ].
    split; [now rewrite forallb_app, K1, K2 | ].
    intros h I. apply in_app_or in I. destruct I as [I | I].
    + destruct (H1 h I) as (pid & Id & Eq). eauto.
    + now apply H2.
Qed.

End Lifetime.



(** * Further properties of the header *)

(** ** Release of handles *)

(** X1. Destroying a [unique_handle] makes no WINAPI call when it holds
    [nullptr] and exactly one call, [CloseHandle] on the stored handle,
    otherwise; [INVALID_HANDLE_VALUE] is not null, so a handle wrapped
    after a failed [CreateToolhelp32Snapshot] is passed to [CloseHandle].
    An empty optional handle is destroyed without a call. *)
Theorem unique_handle_release (os : Win32) (h : HANDLE) (s : Sys os) :
  unique_handle_dtor os h s =
  (Ok tt,
   if h =? nullptr then s
   else {| world := snd (os_CloseHandle os h (world s));
           calls := calls s ++ [CallCloseHandle h] |}) /\
  calls (snd (unique_handle_dtor os (INVALID_HANDLE_VALUE (arch os)) s)) =
  calls s ++ [CallCloseHandle (INVALID_HANDLE_VALUE (arch os))] /\
  optional_handle_dtor os (Some h) s = unique_handle_dtor os h s /\
  optional_handle_dtor os None s = (Ok tt, s).
Proof.
  split; [apply unique_handle_dtor_run | ].
  split; [ | split; reflexivity].
  rewrite unique_handle_dtor_closes by apply INVALID_HANDLE_VALUE_not_null.
  reflexivity.
Qed.

(** X2. The WINAPI calls of a run of [AcquireProcessID], in order: one
    [CreateToolhelp32Snapshot(TH32CS_SNAPPROCESS, 0)]; unless it answered
    [INVALID_HANDLE_VALUE], [Process32First] and, if that succeeded, one
    [Process32Next] per entry examined (up to and including the first
    match, or one more for the answer [FALSE]); last, [CloseHandle] on
    the handle the snapshot call answered (left out only if that answer
    was [nullptr]).  The snapshot is released on every path, the failing
    one included, and nothing else is called. *)
Theorem AcquireProcessID_releases_snapshot (os : Win32) (name : string) (s : Sys os) :
  calls (snd (AcquireProcessID os name s)) =
  calls s ++
  CallCreateToolhelp32Snapshot TH32CS_SNAPPROCESS 0 ::
  (if fst (process_snapshot_of os (world s)) =? INVALID_HANDLE_VALUE (arch os) then []
   else
     CallProcess32First (fst (process_snapshot_of os (world s))) (sizeof_MODULEENTRY32 os) ::
     match Process32First os (sizeof_MODULEENTRY32 os)
                          (snd (process_snapshot_of os (world s))) with
     | Some (_, cursor) =>
         repeat (CallProcess32Next (fst (process_snapshot_of os (world s)))
                                   (sizeof_MODULEENTRY32 os))
                (scanned (fun e => view_eq_cstr name (szExeFile e)) cursor)
     | None => []
     end) ++
  (if fst (process_snapshot_of os (world s)) =? nullptr then []
   else [CallCloseHandle (fst (process_snapshot_of os (world s)))]).
Proof.
  rewrite AcquireProcessID_state. simpl snd. unfold released.
  fold (Process32_calls os (fst (process_snapshot_of os (world s))) name
                        (snd (process_snapshot_of os (world s)))).
  destruct (fst (process_snapshot_of os (world s)) =? nullptr); cbn [calls].
  - now rewrite app_nil_r.
  - now rewrite <- app_assoc.
Qed.

(** X3. [GetModuleBaseAddress] on an object without identifier leaves the
    system untouched and makes no WINAPI call.  With an identifier its
    calls are, in order: one
    [CreateToolhelp32Snapshot(TH32CS_SNAPMODULE | TH32CS_SNAPMODULE32, pid)];
    unless it answered [INVALID_HANDLE_VALUE], [Module32First] and, if
    that succeeded, one [Module32Next] per entry examined; last,
    [CloseHandle] on the handle the snapshot call answered (left out only
    for [nullptr]).  Nothing is kept from one call to the next. *)
Theorem GetModuleBaseAddress_releases_snapshot
        (os : Win32) (this : SafeMemory) (name : string) (s : Sys os) :
  match m_processID this with
  | None => GetModuleBaseAddress os this name s = (Ok None, s)
  | Some pid =>
      calls (snd (GetModuleBaseAddress os this name s)) =
      calls s ++
      CallCreateToolhelp32Snapshot 24 pid ::
      (if fst (module_snapshot_of os pid (world s)) =? INVALID_HANDLE_VALUE (arch os) then []
       else
         CallModule32First (fst (module_snapshot_of os pid (world s)))
                           (sizeof_MODULEENTRY32 os) ::
         match Module32First os (sizeof_MODULEENTRY32 os)
                             (snd (module_snapshot_of os pid (world s))) with
         | Some (_, cursor) =>
             repeat (CallModule32Next (fst (module_snapshot_of os pid (world s)))
                                      (sizeof_MODULEENTRY32 os))
                    (scanned (fun e => view_eq_cstr name (szModule e)) cursor)
         | None => []
         end) ++
      (if fst (module_snapshot_of os pid (world s)) =? nullptr then []
       else [CallCloseHandle (fst (module_snapshot_of os pid (world s)))])
  end.
Proof.
  destruct (m_processID this) as [pid | ] eqn:Id.
  - rewrite (GetModuleBaseAddress_state os this pid name s Id).
    simpl snd. unfold released.
    fold (Module32_calls os (fst (module_snapshot_of os pid (world s))) name
                         (snd (module_snapshot_of os pid (world s)))).
    destruct (fst (module_snapshot_of os pid (world s)) =? nullptr); cbn [calls].
    + now rewrite app_nil_r.
    + now rewrite <- app_assoc.
  - unfold GetModuleBaseAddress. now rewrite Id.
Qed.

(** ** What the two lookups find *)

Lemma c_str_idempotent (s : string) : c_str (c_str s) = c_str s.
Proof.
  induction s as [ | c r IH]; simpl; [reflexivity | ].
  destruct (Ascii.eqb c Ascii.zero) eqn:E; simpl; [reflexivity | ].
  now rewrite E, IH.
Qed.

(** A view that is not a C string equals no C string. *)
Lemma view_with_NUL_differs (name arr : string) :
  c_str name <> name -> view_eq_cstr name arr = false.
Proof.
  intros N. unfold view_eq_cstr. apply String.eqb_neq. intros ->.
  apply N, c_str_idempotent.
Qed.

Lemma spec_find_module_base_sound (name : string) (l : list MODULEENTRY32) (base : Z) :
  spec_find_module_base name l = Some base ->
  exists e, In e l /\ modBaseAddr e = base /\ name = c_str (szModule e).
Proof.
  unfold spec_find_module_base. intros H.
  destruct (find _ l) as [e | ] eqn:F; [ | discriminate].
  apply find_some in F. destruct F as [I Eq]. exists e.
  simpl in H. injection H as <-. repeat split; [exact I | ].
  now apply String.eqb_eq.
Qed.

(** X4. When the process snapshot was created, [Process32First] took the
    [dwSize] the code sets, and the first entry of the snapshot does not
    bear the name, [AcquireProcessID] returns the identifier of the first
    entry in enumeration order whose executable file name is exactly the
    name, and nothing when there is none. *)
Theorem AcquireProcessID_first_match_past_head
        (os : Win32) (name : string) (s : Sys os) :
  fst (process_snapshot_of os (world s)) <> INVALID_HANDLE_VALUE (arch os) ->
  Process32_accepts os (sizeof_MODULEENTRY32 os) = true ->
  (forall e, hd_error (snap_processes (snd (process_snapshot_of os (world s)))) = Some e ->
             name <> c_str (szExeFile e)) ->
  fst (AcquireProcessID os name s) =
  Ok (spec_resolve_by_name name (snap_processes (snd (process_snapshot_of os (world s))))).
Proof.
  intros Val Acc Head. rewrite AcquireProcessID_state. simpl fst. f_equal.
  now apply AcquireProcessID_agrees_past_head.
Qed.

Lemma AcquireProcessID_first_match_past_head_witness :
  fst (AcquireProcessID Demo.os "target.exe" (Demo.start Demo.os Demo.boot)) =
  Ok (Some 4242).
Proof.
  apply (AcquireProcessID_first_match_past_head
           Demo.os "target.exe" (Demo.start Demo.os Demo.boot)).
  - vm_compute. discriminate.
  - reflexivity.
  - intros e H. injection H as <-. vm_compute. discriminate.
Defined.

(** X5. The same for modules: when the object holds an identifier, the
    module snapshot was created, [Module32First] took the [dwSize], and
    the first module of the snapshot does not bear the name,
    [GetModuleBaseAddress] returns the base address of the first module in
    enumeration order whose name is exactly the name. *)
Theorem GetModuleBaseAddress_first_match_past_head
        (os : Win32) (this : SafeMemory) (pid : DWORD) (name : string) (s : Sys os) :
  m_processID this = Some pid ->
  fst (module_snapshot_of os pid (world s)) <> INVALID_HANDLE_VALUE (arch os) ->
  Module32_accepts os (sizeof_MODULEENTRY32 os) = true ->
  (forall e, hd_error (snap_modules (snd (module_snapshot_of os pid (world s)))) = Some e ->
             name <> c_str (szModule e)) ->
  fst (GetModuleBaseAddress os this name s) =
  Ok (spec_find_module_base name (snap_modules (snd (module_snapshot_of os pid (world s))))).
Proof.
  intros Id Val Acc Head.
  rewrite (GetModuleBaseAddress_state os this pid name s Id). simpl fst. f_equal.
  unfold GetModuleBaseAddress_value. fold (module_snapshot_of os pid (world s)).
  destruct (module_snapshot_of os pid (world s)) as [h snap]. simpl in *.
  destruct (Z.eqb_spec h (INVALID_HANDLE_VALUE (arch os))); [contradiction | ].
  rewrite Acc. destruct (snap_modules snap) as [ | e l]; [reflexivity | ].
  simpl. unfold spec_find_module_base. simpl.
  destruct (view_eq_cstr name (szModule e)) eqn:Eq; [ | reflexivity].
  apply String.eqb_eq in Eq. now destruct (Head e eq_refl).
Qed.

Lemma GetModuleBaseAddress_first_match_past_head_witness :
  fst (GetModuleBaseAddress Demo.os Demo.attached "KERNEL32.DLL"
                            (Demo.start Demo.os Demo.opened)) =
  Ok (Some 1979711488).
Proof.
  apply (GetModuleBaseAddress_first_match_past_head
           Demo.os Demo.attached Demo.target_pid "KERNEL32.DLL"
           (Demo.start Demo.os Demo.opened)).
  - reflexivity.
  - vm_compute. discriminate.
  - reflexivity.
  - intros e H. injection H as <-. vm_compute. discriminate.
Defined.

(** X6. A base address returned by [GetModuleBaseAddress] is never made
    up: the object holds an identifier, the snapshot of that process was
    created, and the address is the [modBaseAddr] of an entry of the
    snapshot, after its first one, whose [szModule] is the name character
    for character (a name in another letter case is not found). *)
Theorem GetModuleBaseAddress_sound
        (os : Win32) (this : SafeMemory) (name : string) (s : Sys os) (base : Z) :
  fst (GetModuleBaseAddress os this name s) = Ok (Some base) ->
  exists pid e,
    m_processID this = Some pid /\
    fst (module_snapshot_of os pid (world s)) <> INVALID_HANDLE_VALUE (arch os) /\
    In e (tl (snap_modules (snd (module_snapshot_of os pid (world s))))) /\
    modBaseAddr e = base /\
    name = c_str (szModule e).
Proof.
  intros Found.
  destruct (m_processID this) as [pid | ] eqn:Id.
  - rewrite (GetModuleBaseAddress_state os this pid name s Id) in Found.
    simpl in Found. injection Found as Found.
    unfold GetModuleBaseAddress_value in Found.
    fold (module_snapshot_of os pid (world s)) in Found.
    exists pid.
    destruct (module_snapshot_of os pid (world s)) as [h snap]. simpl.
    destruct (Z.eqb_spec h (INVALID_HANDLE_VALUE (arch os))); [discriminate | ].
    destruct (Module32_accepts os (sizeof_MODULEENTRY32 os)); [ | discriminate].
    apply spec_find_module_base_sound in Found.
    destruct Found as (e & I & B & N). exists e. auto.
  - unfold GetModuleBaseAddress in Found. rewrite Id in Found. discriminate.
Qed.

Lemma GetModuleBaseAddress_sound_witness :
  let s := Demo.start Demo.os Demo.opened in
  fst (GetModuleBaseAddress Demo.os Demo.attached "ntdll.dll" s) = Ok (Some 1996488704) /\
  exists pid e,
    m_processID Demo.attached = Some pid /\
    fst (module_snapshot_of Demo.os pid (world s)) <> INVALID_HANDLE_VALUE (arch Demo.os) /\
    In e (tl (snap_modules (snd (module_snapshot_of Demo.os pid (world s))))) /\
    modBaseAddr e = 1996488704 /\
    "ntdll.dll"%string = c_str (szModule e).
Proof.
  intros s. split; [reflexivity | ].
  exact (GetModuleBaseAddress_sound Demo.os Demo.attached "ntdll.dll" s 1996488704 eq_refl).
Defined.

(** X7. A name that holds a NUL character is never found, whatever the
    snapshots contain: the entries are compared as C strings, which end
    at their first NUL.  Both lookups return an absent result for it. *)
Theorem names_with_NUL_are_never_found
        (os : Win32) (this : SafeMemory) (name : string) (s : Sys os) :
  c_str name <> name ->
  fst (AcquireProcessID os name s) = Ok None /\
  fst (GetModuleBaseAddress os this name s) = Ok None.
Proof.
  intros N.
  assert (P : forall l, spec_resolve_by_name name l = None).
  { intros l. apply spec_resolve_by_name_none. intros e _ ->.
    apply N, c_str_idempotent. }
  assert (Q : forall l, spec_find_module_base name l = None).
  { intros l. apply spec_find_module_base_none. intros e _ ->.
    apply N, c_str_idempotent. }
  split.
  - rewrite AcquireProcessID_state. simpl fst. f_equal.
    unfold AcquireProcessID_value.
    destruct (fst (os_CreateToolhelp32Snapshot os TH32CS_SNAPPROCESS 0 (world s)))
      as [h snap].
    rewrite P.
    now destruct (h =? INVALID_HANDLE_VALUE (arch os)),
                 (Process32_accepts os (sizeof_MODULEENTRY32 os)).
  - destruct (GetModuleBaseAddress_run os this name s) as (s' & E & _).
    rewrite E. simpl fst. f_equal.
    destruct (m_processID this) as [pid | ]; [ | reflexivity].
    unfold GetModuleBaseAddress_value.
    destruct (fst (os_CreateToolhelp32Snapshot os _ pid (world s))) as [h snap].
    rewrite Q.
    now destruct (h =? INVALID_HANDLE_VALUE (arch os)),
                 (Module32_accepts os (sizeof_MODULEENTRY32 os)).
Qed.

Lemma names_with_NUL_are_never_found_witness :
  fst (AcquireProcessID Demo.os name_with_NUL (Demo.start Demo.os Demo.boot)) = Ok None /\
  fst (GetModuleBaseAddress Demo.os Demo.attached name_with_NUL
                            (Demo.start Demo.os Demo.opened)) = Ok None.
Proof.
  split.
  - apply (names_with_NUL_are_never_found Demo.os Demo.attached name_with_NUL
             (Demo.start Demo.os Demo.boot)).
    vm_compute. discriminate.
  - apply (names_with_NUL_are_never_found Demo.os Demo.attached name_with_NUL
             (Demo.start Demo.os Demo.opened)).
    vm_compute. discriminate.
Defined.

(** X8. [AcquireProcessID] compares only entries that follow the first
    one: on a snapshot of at most one process it returns an absent result
    for every name, the name of that process included. *)
Theorem AcquireProcessID_needs_two_entries (os : Win32) (name : string) (s : Sys os) :
  (length (snap_processes (snd (process_snapshot_of os (world s)))) <= 1)%nat ->
  fst (AcquireProcessID os name s) = Ok None.
Proof.
  intros Short. rewrite AcquireProcessID_state. simpl fst. f_equal.
  unfold AcquireProcessID_value. fold (process_snapshot_of os (world s)).
  destruct (process_snapshot_of os (world s)) as [h snap]. simpl in Short.
  destruct (h =? INVALID_HANDLE_VALUE (arch os)); [reflexivity | ].
  destruct (Process32_accepts os (sizeof_MODULEENTRY32 os)); [ | reflexivity].
  destruct (snap_processes snap) as [ | e [ | e' l]]; simpl in *;
    [reflexivity | reflexivity | lia].
Qed.

Lemma AcquireProcessID_needs_two_entries_witness :
  let lone := Demo.machine [ {| th32ProcessID := 4242; szExeFile := "target.exe" |} ] [] in
  fst (AcquireProcessID lone "target.exe" (Demo.start lone Demo.boot)) = Ok None.
Proof.
  intros lone.
  apply (AcquireProcessID_needs_two_entries lone "target.exe" (Demo.start lone Demo.boot)).
  simpl. lia.
Defined.

(** X9. Likewise [GetModuleBaseAddress] returns an absent result for
    every name when the module snapshot of the process lists at most one
    module. *)
Theorem GetModuleBaseAddress_needs_two_entries
        (os : Win32) (this : SafeMemory) (pid : DWORD) (name : string) (s : Sys os) :
  m_processID this = Some pid ->
  (length (snap_modules (snd (module_snapshot_of os pid (world s)))) <= 1)%nat ->
  fst (GetModuleBaseAddress os this name s) = Ok None.
Proof.
  intros Id Short.
  rewrite (GetModuleBaseAddress_state os this pid name s Id). simpl fst. f_equal.
  unfold GetModuleBaseAddress_value. fold (module_snapshot_of os pid (world s)).
  destruct (module_snapshot_of os pid (world s)) as [h snap]. simpl in Short.
  destruct (h =? INVALID_HANDLE_VALUE (arch os)); [reflexivity | ].
  destruct (Module32_accepts os (sizeof_MODULEENTRY32 os)); [ | reflexivity].
  destruct (snap_modules snap) as [ | e [ | e' l]]; simpl in *;
    [reflexivity | reflexivity | lia].
Qed.

Lemma GetModuleBaseAddress_needs_two_entries_witness :
  let lone :=
    Demo.machine Demo.processes [ {| modBaseAddr := 4194304; szModule := "target.exe" |} ] in
  fst (GetModuleBaseAddress lone Demo.attached "target.exe"
                            (Demo.start lone Demo.opened)) = Ok None.
Proof.
  intros lone.
  apply (GetModuleBaseAddress_needs_two_entries
           lone Demo.attached Demo.target_pid "target.exe" (Demo.start lone Demo.opened)).
  - reflexivity.
  - simpl. lia.
Defined.

(** X10. The WINAPI calls of [AcquireProcessIDByWindowName]: [FindWindowA]
    with the title as a C string and, only when a window was found,
    [GetWindowThreadProcessId] on that window.  Nothing is closed and
    nothing else is called. *)
Theorem AcquireProcessIDByWindowName_calls
        (os : Win32) (window_name : string) (s : Sys os) :
  calls (snd (AcquireProcessIDByWindowName os window_name s)) =
  calls s ++
  CallFindWindowA (c_str window_name) ::
  (if fst (os_FindWindowA os None (c_str window_name) (world s)) =? nullptr then []
   else [CallGetWindowThreadProcessId
           (fst (os_FindWindowA os None (c_str window_name) (world s)))]).
Proof.
  unfold AcquireProcessIDByWindowName, FindWindowA, GetWindowThreadProcessId, bind, winapi.
  destruct (os_FindWindowA os None (c_str window_name) (world s)) as [hwnd w1].
  simpl. destruct (hwnd =? nullptr); [reflexivity | ].
  simpl. destruct (os_GetWindowThreadProcessId os hwnd w1) as [[tid stored] w2].
  simpl. destruct (tid =? 0); simpl; now rewrite <- app_assoc.
Qed.

(** ** Construction and destruction *)

(** X11. A constructor returns an object exactly when its resolution step
    produced an identifier and [OpenProcess] answered a non-null handle
    for it.  The object then holds that handle and that identifier, and
    the only WINAPI call after the resolution is
    [OpenProcess(processFlags, FALSE, pid)] with the value of the access
    enumerator. *)
Theorem construction_succeeds_exactly_when
        (os : Win32) (c : Construction) (s s' : Sys os) (this : SafeMemory) :
  construct os c s = (Ok this, s') <->
  exists pid,
    fst (resolve os c s) = Ok (Some pid) /\
    fst (os_OpenProcess os (access_flags (construction_flags c)) false pid
                        (world (snd (resolve os c s)))) <> nullptr /\
    this = {| m_processHandle :=
                Some (fst (os_OpenProcess os (access_flags (construction_flags c)) false pid
                                          (world (snd (resolve os c s)))));
              m_processID := Some pid |} /\
    s' = {| world := snd (os_OpenProcess os (access_flags (construction_flags c)) false pid
                                         (world (snd (resolve os c s))));
            calls := calls (snd (resolve os c s)) ++
                     [CallOpenProcess (access_flags (construction_flags c)) false pid] |}.
Proof.
  destruct (construct_run os c s) as (r & s1 & E & Run).
  rewrite E. simpl fst. simpl snd. split.
  - intros Built. destruct r as [pid | ].
    + simpl in Run. rewrite Run in Built. exists pid.
      destruct (Z.eqb_spec
                  (fst (os_OpenProcess os (access_flags (construction_flags c)) false pid
                                       (world s1))) nullptr) as [N | N];
        [discriminate | ].
      injection Built as <- <-. auto.
    + rewrite Run in Built. discriminate.
  - intros (pid & R & N & -> & ->). injection R as ->.
    simpl in Run. rewrite Run.
    destruct (Z.eqb_spec
                (fst (os_OpenProcess os (access_flags (construction_flags c)) false pid
                                     (world s1))) nullptr) as [N' | N'];
      [contradiction | reflexivity].
Qed.

(** X12. A constructor that throws leaves no handle behind: either its
    resolution step found nothing and [OpenProcess] was not called (the
    state is the one the resolution left), or [OpenProcess] was called
    once, answered [NULL], and the exception is the constructor's own.
    No handle was obtained, so none has to be closed. *)
Theorem failed_construction_leaves_no_handle
        (os : Win32) (c : Construction) (s s' : Sys os) (e : exn) :
  construct os c s = (Throw e, s') ->
  (fst (resolve os c s) = Ok None /\ s' = snd (resolve os c s)) \/
  (exists pid,
      fst (resolve os c s) = Ok (Some pid) /\
      fst (os_OpenProcess os (access_flags (construction_flags c)) false pid
                          (world (snd (resolve os c s)))) = nullptr /\
      e = Failed_to_open /\
      calls s' = calls (snd (resolve os c s)) ++
                 [CallOpenProcess (access_flags (construction_flags c)) false pid]).
Proof.
  intros Thrown. destruct (construct_run os c s) as (r & s1 & E & Run).
  rewrite E. simpl fst. simpl snd. destruct r as [pid | ].
  - right. exists pid. simpl in Run. rewrite Run in Thrown.
    destruct (Z.eqb_spec
                (fst (os_OpenProcess os (access_flags (construction_flags c)) false pid
                                     (world s1))) nullptr) as [N | N];
      [ | discriminate].
    injection Thrown as <- <-. auto.
  - left. rewrite Run in Thrown. injection Thrown as _ <-. auto.
Qed.

Lemma failed_construction_leaves_no_handle_witness :
  let s := Demo.start Demo.os Demo.boot in
  let c := By_id (Some 7) SafeMemory_ReadAccess in
  (fst (resolve Demo.os c s) = Ok None /\
   snd (construct Demo.os c s) = snd (resolve Demo.os c s)) \/
  (exists pid,
      fst (resolve Demo.os c s) = Ok (Some pid) /\
      fst (os_OpenProcess Demo.os (access_flags (construction_flags c)) false pid
                          (world (snd (resolve Demo.os c s)))) = nullptr /\
      Failed_to_open = Failed_to_open /\
      calls (snd (construct Demo.os c s)) =
      calls (snd (resolve Demo.os c s)) ++
      [CallOpenProcess (access_flags (construction_flags c)) false pid]).
Proof.
  intros s c.
  exact (failed_construction_leaves_no_handle Demo.os c s _ Failed_to_open eq_refl).
Defined.

(** X13. The constructors by name and by window title are their
    resolution followed by the constructor by identifier, whenever the
    resolution finds an identifier; on an empty resolution they throw
    [std::bad_optional_access] at once. *)
Theorem named_constructors_defer_to_by_id
        (os : Win32) (name : string) (processFlags : SafeMemory_Access)
        (min_window : bool) (s : Sys os) :
  SafeMemory_by_name os name processFlags s =
  bind (AcquireProcessID os name)
       (fun process_id =>
          match process_id with
          | Some pid => SafeMemory_by_id os (Some pid) processFlags
          | None => throw bad_optional_access
          end) s /\
  SafeMemory_by_window os name processFlags min_window s =
  bind (AcquireProcessIDByWindowName os name)
       (fun process_id =>
          match process_id with
          | Some pid => SafeMemory_by_id os (Some pid) processFlags
          | None => throw bad_optional_access
          end) s.
Proof.
  split.
  - unfold SafeMemory_by_name, SafeMemory_by_id. rewrite !run_bind.
    destruct (AcquireProcessID os name s) as [[[pid | ] | e] s1]; reflexivity.
  - unfold SafeMemory_by_window, SafeMemory_by_id. rewrite !run_bind.
    destruct (AcquireProcessIDByWindowName os name s) as [[[pid | ] | e] s1]; reflexivity.
Qed.

(** X14. The destructor of an object that came out of a constructor
    makes exactly one WINAPI call, [CloseHandle] on the handle the object
    holds, and returns normally, in whatever state it runs. *)
Theorem destructor_closes_the_opened_handle
        (os : Win32) (c : Construction) (s s1 s2 : Sys os) (this : SafeMemory) :
  construct os c s = (Ok this, s1) ->
  exists h,
    m_processHandle this = Some h /\
    SafeMemory_dtor os this s2 =
    (Ok tt, {| world := snd (os_CloseHandle os h (world s2));
               calls := calls s2 ++ [CallCloseHandle h] |}).
Proof.
  intros Built. destruct (construct_run os c s) as (r & s1' & E & Run).
  destruct r as [pid | ]; [ | rewrite Run in Built; discriminate].
  simpl in Run. rewrite Run in Built.
  destruct (Z.eqb_spec
              (fst (os_OpenProcess os (access_flags (construction_flags c)) false pid
                                   (world s1'))) nullptr) as [N | N];
    [discriminate | ].
  injection Built as <- _. eexists. split; [reflexivity | ].
  unfold SafeMemory_dtor. simpl. now apply unique_handle_dtor_closes.
Qed.

Lemma destructor_closes_the_opened_handle_witness :
  let s := Demo.start Demo.os Demo.boot in
  let c := By_window "Target Window" SafeMemory_ReadAccess true in
  exists h,
    m_processHandle Demo.attached = Some h /\
    SafeMemory_dtor Demo.os Demo.attached (snd (construct Demo.os c s)) =
    (Ok tt, {| world := snd (os_CloseHandle Demo.os h (world (snd (construct Demo.os c s))));
               calls := calls (snd (construct Demo.os c s)) ++ [CallCloseHandle h] |}).
Proof.
  intros s c.
  exact (destructor_closes_the_opened_handle
           Demo.os c s _ (snd (construct Demo.os c s)) Demo.attached eq_refl).
Defined.

(** ** Transfers and the public interface *)

(** X15. Each of [SafeReadMemory] and [SafeWriteMemory] makes no WINAPI
    call and leaves the system untouched when the handle member is empty,
    and otherwise makes exactly one call, through the stored handle, at
    the given address: a read of [sizeof(T)] bytes, respectively a write
    of the [sizeof(T)] bytes of the value.  A failed transfer is not
    tried again. *)
Theorem memory_access_is_one_transfer
        (os : Win32) (T : Type) (L : Layout T) (OkT : LayoutOk T)
        (this : SafeMemory) (address_ptr : Z) (v : T) (s : Sys os) :
  match m_processHandle this with
  | None =>
      SafeReadMemory os T this address_ptr s = (Ok None, s) /\
      SafeWriteMemory os this address_ptr v s = (Ok false, s)
  | Some h =>
      calls (snd (SafeReadMemory os T this address_ptr s)) =
      calls s ++ [CallReadProcessMemory h address_ptr (sizeof T)] /\
      calls (snd (SafeWriteMemory os this address_ptr v s)) =
      calls s ++ [CallWriteProcessMemory h address_ptr (object_bytes v)] /\
      length (object_bytes v) = sizeof T
  end.
Proof.
  rewrite SafeReadMemory_run, SafeWriteMemory_run.
  destruct (m_processHandle this) as [h | ]; [ | split; reflexivity].
  repeat split. apply object_bytes_length.
Qed.

Lemma memory_access_is_one_transfer_witness :
  let s := Demo.start Demo.os Demo.opened in
  calls (snd (SafeReadMemory Demo.os word32 Demo.attached 4194308 s)) =
  [CallReadProcessMemory Demo.target_handle 4194308 4] /\
  calls (snd (SafeWriteMemory Demo.os Demo.attached 4194308 (word32_of_Z 42) s)) =
  [CallWriteProcessMemory Demo.target_handle 4194308 (object_bytes (word32_of_Z 42))] /\
  length (object_bytes (word32_of_Z 42)) = sizeof word32.
Proof.
  intros s.
  exact (memory_access_is_one_transfer Demo.os word32 _ LayoutOk_word32
           Demo.attached 4194308 (word32_of_Z 42) s).
Defined.

(** X16. No sequence of public calls re-targets the object: whatever the
    calls and the state, the WINAPI calls they add to the trace are
    module snapshot creations, [Module32First], [Module32Next],
    [CloseHandle], [ReadProcessMemory] and [WriteProcessMemory];
    [OpenProcess], [FindWindowA], [GetWindowThreadProcessId] and the
    process enumeration are never called after construction. *)
Theorem public_calls_never_open_a_process
        (os : Win32) (this : SafeMemory) (cs : list PublicCall) (s : Sys os) :
  exists added,
    calls (snd (invoke_all os this cs s)) = calls s ++ added /\
    forallb keeps_target added = true.
Proof.
  destruct (invoke_all_trace os this cs s) as (s' & added & E & C & K & _).
  exists added. rewrite E. auto.
Qed.
